(** * rio_tiler.cbers: bounds, metadata and tile for CBERS scenes

    A shallow embedding of [rio_tiler/cbers.py].  The three public functions
    are written in a small writer-and-error monad: the writer part records
    the calls the functions make to their collaborators (raster opens,
    bounds transforms, worker runs), the error part carries Python
    exceptions.  The collaborators that are not part of [cbers.py] (the
    asset store behind [rasterio.open], [transform_bounds], [mercantile] and
    the helpers of [rio_tiler.utils]) are fields of an environment record;
    the choices of the thread pool are read from a scheduler.

    The file has three parts: the embedding of the code, the vocabulary of
    the statements, and the properties with their proofs, which end with
    the statements at a concrete scene; further properties of the code
    follow, with their own concrete instances. *)

From Stdlib Require Import QArith.
From stdpp Require Import gmap strings list fin_maps pretty.

Open Scope string_scope.
Open Scope list_scope.
Set Warnings "-register-all".

(** ** Exceptions and results *)

Inductive exn_class :=
  | IOError
  | TileOutsideBounds
  | ValueError
  | TypeError
  | RuntimeError
  | OtherException (name : string).

Record exn := Raise { exn_cls : exn_class; exn_msg : string }.

Inductive result (A : Type) :=
  | Ok (a : A)
  | Err (e : exn).
Arguments Ok {A} a.
Arguments Err {A} e.

Definition raises {A} (c : exn_class) (r : result A) : Prop :=
  ∃ msg, r = Err (Raise c msg).

(** ** Data *)

(** A bounding box [(left, bottom, right, top)]; in geographic coordinates
    this is [(west, south, east, north)].  Coordinates are rationals: the
    code only passes its floats on and compares them. *)
Record box := Box { left : Q; bottom : Q; right : Q; top : Q }.

Definition list_of_box (b : box) : list Q :=
  [left b; bottom b; right b; top b].

(** What [rasterio.open] yields: the two attributes the code reads. *)
Record dataset := Dataset { crs : string; ds_bounds : box }.

(** The dict returned by [utils.cbers_parse_scene_id]; the code reads only
    its ['key'] entry. *)
Record scene_params := SceneParams { key : string }.

(** n-dimensional arrays as nested lists of pixels. *)
Inductive ndarray :=
  | Px (v : Z)
  | Nd (items : list ndarray).

Fixpoint shape (a : ndarray) : list nat :=
  match a with
  | Px _ => []
  | Nd l => length l :: match l with [] => [] | x :: _ => shape x end
  end.

(** The [(min, max)] cut of one band. *)
Definition minmax : Type := Z * Z.

(** The ['bounds'] dict of [bounds] and the dict of [metadata]. *)
Record bounds_info := BoundsInfo { b_sceneid : string; b_bounds : list Q }.

Record metadata_info := MetadataInfo {
  m_sceneid : string;
  m_bounds : list Q;
  rgbMinMax : gmap string minmax
}.

(** The [rgb] argument of [tile]: a tuple of band ids, a bare string, or
    (as the docstring allows) an int. *)
Inductive rgb_arg :=
  | RgbTuple (bands : list string)
  | RgbStr (band : string)
  | RgbInt (n : Z).

(** ** Events and the monad *)

Inductive event :=
  | EOpen (path : string)
  | ETransform (src_crs dst_crs : string) (b : box) (densify_pts : Z)
  | ERun (task : nat) (address : string).

Definition M (A : Type) : Type := list event * result A.

Definition trace {A} (m : M A) : list event := fst m.
Definition outcome {A} (m : M A) : result A := snd m.

Global Instance M_ret : MRet M := λ A a, ([], Ok a).
Global Instance M_bind : MBind M := λ A B f m,
  match m with
  | (t, Ok a) => let '(t', r) := f a in (t ++ t', r)
  | (t, Err e) => (t, Err e)
  end.

Definition raise {A} (c : exn_class) (msg : string) : M A :=
  ([], Err (Raise c msg)).
Definition emit (e : event) : M unit := ([e], Ok tt).
Definition lift {A} (r : result A) : M A := ([], r).

(** ** The environment: everything outside [cbers.py] *)

Record Env := {
  (** the object store behind [rasterio.open] *)
  assets : gmap string dataset;
  (** [rasterio.warp.transform_bounds(src_crs, dst_crs, l, b, r, t, densify_pts)] *)
  warp_transform_bounds : string → string → box → Z → result box;
  (** [mercantile.xy_bounds(Tile(x, y, z))] *)
  mercantile_xy_bounds : Z → Z → Z → box;
  (** [mercantile.bounds(Tile(x, y, z))]: the footprint in degrees *)
  mercantile_bounds : Z → Z → Z → box;
  (** [utils.cbers_parse_scene_id] and the name [metadata] calls *)
  cbers_parse_scene_id : string → result scene_params;
  cbersl_parse_scene_id : string → result scene_params;
  (** [utils.sentinel_min_max_worker(address, pmin, pmax)] *)
  sentinel_min_max_worker : string → Z → Z → result minmax;
  (** [utils.tile_band_worker(address, bounds, tilesize)] *)
  tile_band_worker : string → box → Z → result ndarray
}.

Definition CBERS_BUCKET : string := "s3://cbers-pds".

(** [rasterio.open(path)]: an [IOError] when the asset is not there. *)
Definition rasterio_open (env : Env) (path : string) : M dataset :=
  emit (EOpen path);;
  match assets env !! path with
  | Some ds => mret ds
  | None => raise IOError path
  end.

Definition transform_bounds (env : Env) (src dst : string) (b : box)
    (densify_pts : Z) : M box :=
  emit (ETransform src dst b densify_pts);;
  lift (warp_transform_bounds env src dst b densify_pts).

(** ['{}/{}'.format(CBERS_BUCKET, scene_params['key'])] *)
Definition cbers_address_of (p : scene_params) : string :=
  CBERS_BUCKET +:+ "/" +:+ key p.

(** ['{}/{}_BAND{}.tif'.format(cbers_address, sceneid, band)] *)
Definition band_address (cbers_address sceneid band : string) : string :=
  cbers_address +:+ "/" +:+ sceneid +:+ "_BAND" +:+ band +:+ ".tif".

(** ['{}/preview.jp2'.format(cbers_address)] *)
Definition preview_address (cbers_address : string) : string :=
  cbers_address +:+ "/preview.jp2".

(** ** [bounds] *)

Definition bounds (env : Env) (sceneid : string) : M bounds_info :=
  scene_params ← lift (cbers_parse_scene_id env sceneid);
  let cbers_address := cbers_address_of scene_params in
  src ← rasterio_open env (band_address cbers_address sceneid "5");
  wgs_bounds ← transform_bounds env (crs src) "epsg:4326" (ds_bounds src) 21;
  mret {| b_sceneid := sceneid; b_bounds := list_of_box wgs_bounds |}.

(** ** [concurrent.futures.ThreadPoolExecutor.map]

    [map] submits one task per address and returns an iterator over the
    futures in submission order.  The pool starts the tasks in submission
    order, at most [max_workers] at a time; the task that finishes next is
    one of those running, and which one is the scheduler's choice, read
    from [picks] (an exhausted list picks the oldest).  When the iterator
    meets a failed future it raises and cancels the futures whose tasks
    have not started; [reach] is the number of tasks behind the failing one
    that the pool had started by then.  The block [with ... as executor]
    waits for the started tasks. *)

Record scheduler := Scheduler { picks : list nat; reach : nat }.

(** The position of the first exception among the outcomes. *)
Fixpoint first_error {A} (rs : list (result A)) : option nat :=
  match rs with
  | [] => None
  | Ok _ :: rs' => S <$> first_error rs'
  | Err _ :: _ => Some 0%nat
  end.

(** How many of the submitted tasks get started. *)
Definition started {A} (sched : scheduler) (outcomes : list (result A)) : nat :=
  match first_error outcomes with
  | Some i => (S i + reach sched) `min` length outcomes
  | None => length outcomes
  end.

(** The order in which the started tasks finish; [fuel] bounds the number
    of steps and is set to the number of tasks. *)
Fixpoint completion_order (max_workers fuel : nat) (picks pending : list nat)
    : list nat :=
  match fuel, pending with
  | S fuel', p0 :: _ =>
      let running := take max_workers pending in
      let k := (hd 0 picks `mod` length running)%nat in
      nth k pending p0
        :: completion_order max_workers fuel' (tl picks) (delete k pending)
  | _, _ => []
  end.

(** The tasks in the order they finished, each with its address. *)
Definition finished (addresses : list string) (order : list nat)
    : list (nat * string) :=
  omap (λ i, a ← addresses !! i; Some (i, a)) order.

(** The futures that hold an outcome once the pool is drained. *)
Definition futures_done {A} (f : string → result A)
    (done : list (nat * string)) : gmap nat (result A) :=
  foldl (λ m ia, <[ia.1 := f ia.2]> m) ∅ done.

(** The iterator [map] returns: the outcomes of the futures in submission
    order; the exception of a future is raised when its turn comes. *)
Fixpoint result_iterator {A} (done : gmap nat (result A)) (i n : nat)
    : result (list A) :=
  match n with
  | O => Ok []
  | S n' =>
      match done !! i with
      | Some (Ok v) =>
          match result_iterator done (S i) n' with
          | Ok vs => Ok (v :: vs)
          | Err e => Err e
          end
      | Some (Err e) => Err e
      | None => Err (Raise RuntimeError "future never completed")
      end
  end.

Definition executor_map {A} (max_workers : nat) (sched : scheduler)
    (f : string → result A) (addresses : list string) : M (list A) :=
  if decide (max_workers = 0%nat) then
    raise ValueError "max_workers must be greater than 0"
  else
    let m := started sched (f <$> addresses) in
    let done :=
      finished addresses
        (completion_order max_workers m (picks sched) (seq 0 m)) in
    ((λ ia, ERun ia.1 ia.2) <$> done,
     result_iterator (futures_done f done) 0 (length addresses)).

(** ** [numpy.stack] (along a new first axis) *)

Definition np_stack (arrays : list ndarray) : M ndarray :=
  match arrays with
  | [] => raise ValueError "need at least one array to stack"
  | a :: rest =>
      if forallb (λ b, bool_decide (shape b = shape a)) rest
      then mret (Nd arrays)
      else raise ValueError "all input arrays must have the same shape"
  end.

(** ** [dict(zip(keys, values))]: a later pair overwrites an earlier one *)

Definition dict {V} (pairs : list (string * V)) : gmap string V :=
  foldl (λ m kv, <[kv.1 := kv.2]> m) ∅ pairs.

(** ** [utils.tile_exists] *)

Definition boxes_overlap (a b : box) : bool :=
  Qle_bool (left a) (right b) && Qle_bool (left b) (right a)
  && Qle_bool (bottom a) (top b) && Qle_bool (bottom b) (top a).

(** Modelled from the spec: [utils.tile_exists] is not among the sources.
    The spec (Tile Fetcher, step 2) has it convert the requested tile to
    its bounding box and test that box for intersection with the scene's
    geographic bounds, a 2D axis-aligned box overlap test. *)
Definition tile_exists (env : Env) (scene_bounds : box)
    (tile_z tile_x tile_y : Z) : bool :=
  boxes_overlap (mercantile_bounds env tile_x tile_y tile_z) scene_bounds.

(** ** [metadata] *)

Definition metadata_bands : list string := ["5"; "6"; "6"; "8"].

Definition metadata (env : Env) (sched : scheduler) (sceneid : string)
    (pmin pmax : Z) : M metadata_info :=
  scene_params ← lift (cbersl_parse_scene_id env sceneid);
  let cbers_address := cbers_address_of scene_params in
  src ← rasterio_open env (preview_address cbers_address);
  wgs_bounds ← transform_bounds env (crs src) "epsg:4326" (ds_bounds src) 21;
  let bands := metadata_bands in
  let addresses := band_address cbers_address sceneid <$> bands in
  let _min_max_worker a := sentinel_min_max_worker env a pmin pmax in
  responses ← executor_map 2 sched _min_max_worker addresses;
  mret {| m_sceneid := sceneid;
          m_bounds := list_of_box wgs_bounds;
          rgbMinMax := dict (zip bands responses) |}.

(** ** [tile] *)

(** [isinstance(rgb, str)]: a bare string becomes a one-element tuple. *)
Definition coerce_rgb (rgb : rgb_arg) : rgb_arg :=
  match rgb with
  | RgbStr s => RgbTuple [s]
  | _ => rgb
  end.

(** [for band in rgb]: a tuple yields its items, a string its characters,
    an int is not iterable. *)
Definition iter_rgb (rgb : rgb_arg) : M (list string) :=
  match rgb with
  | RgbTuple bands => mret bands
  | RgbStr s => mret ((λ c, String c EmptyString) <$> String.list_ascii_of_string s)
  | RgbInt _ => raise TypeError "'int' object is not iterable"
  end.

Definition outside_message (tile_z tile_x tile_y : Z) : string :=
  "Tile " +:+ pretty tile_z +:+ "/" +:+ pretty tile_x +:+ "/"
  +:+ pretty tile_y +:+ " is outside image bounds".

Definition tile (env : Env) (sched : scheduler) (sceneid : string)
    (tile_x tile_y tile_z : Z) (rgb : rgb_arg) (tilesize : Z) : M ndarray :=
  let rgb := coerce_rgb rgb in
  scene_params ← lift (cbers_parse_scene_id env sceneid);
  let cbers_address := cbers_address_of scene_params in
  src ← rasterio_open env (band_address cbers_address sceneid "5");
  wgs_bounds ← transform_bounds env (crs src) "epsg:4326" (ds_bounds src) 21;
  if negb (tile_exists env wgs_bounds tile_z tile_x tile_y) then
    raise TileOutsideBounds (outside_message tile_z tile_x tile_y)
  else
    let tile_bounds := mercantile_xy_bounds env tile_x tile_y tile_z in
    bands ← iter_rgb rgb;
    let addresses := band_address cbers_address sceneid <$> bands in
    let _tiler a := tile_band_worker env a tile_bounds tilesize in
    arrays ← executor_map 3 sched _tiler addresses;
    np_stack arrays.

(** The declared defaults. *)
Definition default_pmin : Z := 2.
Definition default_pmax : Z := 98.
Definition default_rgb : rgb_arg := RgbTuple ["5"; "6"; "7"].
Definition default_tilesize : Z := 256.

(** ** [cachetools.func.lru_cache()]

    The decorator is applied without arguments, so the cache holds at most
    [maxsize = 128] results, the default of the library.  The entries are
    kept most recently used first; a hit moves its entry to the front, a
    miss runs the function and, when it returns, stores the result at the
    front and drops what no longer fits.  An exception is not stored. *)

Section lru_cache.
Context {K V : Type} `{EqDecision K}.

Definition maxsize : nat := 128.

Fixpoint cache_get (k : K) (c : list (K * V)) : option V :=
  match c with
  | [] => None
  | (k', v) :: c' => if decide (k' = k) then Some v else cache_get k c'
  end.

Definition cache_drop (k : K) (c : list (K * V)) : list (K * V) :=
  filter (λ kv, kv.1 ≠ k) c.

Definition lru_cache (func : K → M V) (k : K) (c : list (K * V))
    : M V * list (K * V) :=
  match cache_get k c with
  | Some v => (mret v, (k, v) :: cache_drop k c)
  | None =>
      match func k with
      | (t, Ok v) => ((t, Ok v), take maxsize ((k, v) :: c))
      | (t, Err e) => ((t, Err e), c)
      end
  end.

(** A process: a sequence of calls of one decorated function, each in the
    environment of its time, threading the cache. *)
Fixpoint session {E} (func : E → K → M V) (calls : list (E * K))
    (c : list (K * V)) : list (M V) * list (K * V) :=
  match calls with
  | [] => ([], c)
  | (env, k) :: rest =>
      let '(r, c') := lru_cache (func env) k c in
      let '(rs, c'') := session func rest c' in
      (r :: rs, c'')
  end.
End lru_cache.

Global Instance rgb_arg_eq_dec : EqDecision rgb_arg.
Proof. solve_decision. Defined.

(** The three decorated functions.  The key is the tuple of the arguments
    as passed. *)
Definition cached_bounds (env : Env) (sceneid : string)
    (c : list (string * bounds_info)) :=
  lru_cache (bounds env) sceneid c.

(** [metadata] and [tile] as functions of the environment of a call (the
    world and the scheduler) and of the argument tuple. *)
Definition metadata_call (world : Env * scheduler) (args : string * Z * Z)
    : M metadata_info :=
  let '(env, sched) := world in
  let '(sceneid, pmin, pmax) := args in
  metadata env sched sceneid pmin pmax.

Definition tile_call (world : Env * scheduler)
    (args : string * Z * Z * Z * rgb_arg * Z) : M ndarray :=
  let '(env, sched) := world in
  let '(sceneid, tile_x, tile_y, tile_z, rgb, tilesize) := args in
  tile env sched sceneid tile_x tile_y tile_z rgb tilesize.

Definition cached_metadata (env : Env) (sched : scheduler)
    (args : string * Z * Z) (c : list (string * Z * Z * metadata_info)) :=
  lru_cache (metadata_call (env, sched)) args c.

Definition cached_tile (env : Env) (sched : scheduler)
    (args : string * Z * Z * Z * rgb_arg * Z)
    (c : list (string * Z * Z * Z * rgb_arg * Z * ndarray)) :=
  lru_cache (tile_call (env, sched)) args c.

(** * Vocabulary of the statements *)

(** ** Readers, caches, outcomes and traces *)

(** The value a reader produced, if it did. *)
Definition read_ok {A B} (reader : A → result B) (a : A) : option B :=
  match reader a with Ok b => Some b | Err _ => None end.

(** [k] is stored with [v], behind at most [n] other entries. *)
Definition stored_within {K V} (k : K) (v : V) (n : nat) (c : list (K * V))
    : Prop :=
  ∃ pre post,
    c = pre ++ (k, v) :: post ∧ (k ∉ pre.*1) ∧ (length pre ≤ n)%nat.

(** Every entry of the cache is a result the function has returned. *)
Definition cache_sound {E K V} (func : E → K → M V) (c : list (K * V))
    : Prop :=
  ∀ k v, (k, v) ∈ c → ∃ env, outcome (func env k) = Ok v.

(** What a sequential loop over the outcomes yields: all the values, or the
    first exception. *)
Fixpoint collect {A} (rs : list (result A)) : result (list A) :=
  match rs with
  | [] => Ok []
  | Ok v :: rs' =>
      match collect rs' with Ok vs => Ok (v :: vs) | Err e => Err e end
  | Err e :: _ => Err e
  end.

(** The rasters a run opened by itself, in order. *)
Definition opens (t : list event) : list string :=
  omap (λ ev, match ev with EOpen path => Some path | _ => None end) t.

(** The worker runs of a fan-out over [addresses], each task once. *)
Definition runs (addresses : list string) : list event :=
  (λ ia, ERun ia.1 ia.2) <$> zip (seq 0 (length addresses)) addresses.

(** Lines 129 to 133 of [tile]: the per-band reads and the stacking. *)
Definition tile_fan_out (env : Env) (sched : scheduler) (sceneid : string)
    (tile_x tile_y tile_z : Z) (rgb : rgb_arg) (tilesize : Z)
    (cbers_address : string) : M ndarray :=
  bands ← iter_rgb (coerce_rgb rgb);
  arrays ← executor_map 3 sched
    (λ a, tile_band_worker env a
            (mercantile_xy_bounds env tile_x tile_y tile_z) tilesize)
    (band_address cbers_address sceneid <$> bands);
  np_stack arrays.

(** Lines 122 to 135 of [tile], as a function of the bounds computed
    before them. *)
Definition tile_from_bounds (env : Env) (sched : scheduler) (sceneid : string)
    (tile_x tile_y tile_z : Z) (rgb : rgb_arg) (tilesize : Z)
    (cbers_address : string) (wgs_bounds : box) : M ndarray :=
  if tile_exists env wgs_bounds tile_z tile_x tile_y then
    tile_fan_out env sched sceneid tile_x tile_y tile_z rgb tilesize
      cbers_address
  else raise TileOutsideBounds (outside_message tile_z tile_x tile_y).

(** Lines 77 to 84 of [metadata]. *)
Definition metadata_from_bounds (env : Env) (sched : scheduler)
    (sceneid : string) (pmin pmax : Z) (cbers_address : string)
    (wgs_bounds : box) : M metadata_info :=
  responses ← executor_map 2 sched
    (λ a, sentinel_min_max_worker env a pmin pmax)
    (band_address cbers_address sceneid <$> metadata_bands);
  mret {| m_sceneid := sceneid;
          m_bounds := list_of_box wgs_bounds;
          rgbMinMax := dict (zip metadata_bands responses) |}.

(** ** Boxes as sets of points *)

Definition in_box (x y : Q) (b : box) : Prop :=
  (left b <= x)%Q ∧ (x <= right b)%Q ∧ (bottom b <= y)%Q ∧ (y <= top b)%Q.

Definition overlapping (a b : box) : Prop :=
  ∃ x y, in_box x y a ∧ in_box x y b.

Definition disjoint_boxes (a b : box) : Prop :=
  ∀ x y, ¬ (in_box x y a ∧ in_box x y b).

Definition wf_box (b : box) : Prop :=
  (left b <= right b)%Q ∧ (bottom b <= top b)%Q.

(** ** Arrays and readers *)

Definition same_shape (arrays : list ndarray) : Prop :=
  ∀ a b, a ∈ arrays → b ∈ arrays → shape a = shape b.

(** The band readers of a [tile] call, by band id. *)
Definition band_reader (env : Env) (sceneid : string) (tile_x tile_y tile_z : Z)
    (tilesize : Z) (p : scene_params) (band : string) : result ndarray :=
  tile_band_worker env (band_address (cbers_address_of p) sceneid band)
    (mercantile_xy_bounds env tile_x tile_y tile_z) tilesize.

(** The statistics readers of a [metadata] call, by band id. *)
Definition stats_reader (env : Env) (sceneid : string) (pmin pmax : Z)
    (p : scene_params) (band : string) : result minmax :=
  sentinel_min_max_worker env (band_address (cbers_address_of p) sceneid band)
    pmin pmax.

(** ** Concrete scenes *)

(** A scene ["A"] with its preview and its reference band in the store,
    identity transform, tiles of one degree, and workers that succeed. *)
Definition demo_parse (sceneid : string) : result scene_params :=
  Ok (SceneParams ("CBERS4/MUX/" +:+ sceneid)).

Definition demo_bounds : box := Box (-54) (-25) (-53) (-24).

Definition demo_tile_box (x y z : Z) : box :=
  Box (inject_Z x) (inject_Z y) (inject_Z x + 1) (inject_Z y + 1).

Definition demo_grid (address : string) : ndarray :=
  Nd [Nd [Px (Z.of_nat (String.length address)); Px 0]; Nd [Px 1; Px 2]].

Definition demo_env : Env := {|
  assets :=
    {[ "s3://cbers-pds/CBERS4/MUX/A/A_BAND5.tif"
         := Dataset "epsg:32722" demo_bounds;
       "s3://cbers-pds/CBERS4/MUX/A/preview.jp2"
         := Dataset "epsg:32722" demo_bounds ]};
  warp_transform_bounds := λ _ _ b _, Ok b;
  mercantile_xy_bounds := demo_tile_box;
  mercantile_bounds := demo_tile_box;
  cbers_parse_scene_id := demo_parse;
  cbersl_parse_scene_id := demo_parse;
  sentinel_min_max_worker := λ a pmin pmax,
    Ok (pmin, (pmax + Z.of_nat (String.length a))%Z);
  tile_band_worker := λ a _ _, Ok (demo_grid a)
|}.

(** Modelled from the spec: [rio_tiler.utils] is not among the sources.
    The spec has one scene address resolver, the one [bounds] and [tile]
    call as [cbers_parse_scene_id]; the module has no attribute
    [cbersl_parse_scene_id], so the call [metadata] makes under that name
    raises an [AttributeError].  The rest is the scene ["A"] of
    [demo_env]. *)
Definition demo_env_shipped : Env := {|
  assets := assets demo_env;
  warp_transform_bounds := warp_transform_bounds demo_env;
  mercantile_xy_bounds := demo_tile_box;
  mercantile_bounds := demo_tile_box;
  cbers_parse_scene_id := demo_parse;
  cbersl_parse_scene_id := λ _,
    Err (Raise (OtherException "AttributeError")
           "module 'rio_tiler.utils' has no attribute 'cbersl_parse_scene_id'");
  sentinel_min_max_worker := sentinel_min_max_worker demo_env;
  tile_band_worker := tile_band_worker demo_env
|}.

(** The same scene when the band files cannot be read. *)
Definition demo_env_bands_missing : Env := {|
  assets := assets demo_env;
  warp_transform_bounds := warp_transform_bounds demo_env;
  mercantile_xy_bounds := demo_tile_box;
  mercantile_bounds := demo_tile_box;
  cbers_parse_scene_id := demo_parse;
  cbersl_parse_scene_id := demo_parse;
  sentinel_min_max_worker := λ a _ _, Err (Raise IOError a);
  tile_band_worker := λ a _ _, Err (Raise IOError a)
|}.

(** The claim as the specification words it: a result, once computed, is
    kept for the rest of the process, so a later call of [bounds] with the
    same scene id returns what the earlier call returned. *)
Definition bounds_memoized_forever : Prop :=
  (∀ (calls : list (Env * string)) (i : nat) (sceneid : string)
     (info : bounds_info),
     snd <$> calls !! i = Some sceneid →
     outcome <$> (session bounds calls []).1 !! i = Some (Ok info) →
     cache_get sceneid (session bounds calls []).2 = Some info)
  ∧ (∀ (calls : list (Env * string)) (i j : nat) (sceneid : string)
       (info : bounds_info),
       (i < j)%nat →
       snd <$> calls !! i = Some sceneid →
       snd <$> calls !! j = Some sceneid →
       outcome <$> (session bounds calls []).1 !! i = Some (Ok info) →
       outcome <$> (session bounds calls []).1 !! j = Some (Ok info)).

(** A store with scene ["A"], whose reference band has the given bounds,
    and 128 more scenes. *)
Definition crowd : list string := (λ n : nat, "S" +:+ pretty n) <$> seq 0 128.

Definition crowd_env (bounds_of_A : box) : Env := {|
  assets :=
    <[ "s3://cbers-pds/CBERS4/MUX/A/A_BAND5.tif"
         := Dataset "epsg:32722" bounds_of_A ]>
      (list_to_map
         ((λ s, (band_address (CBERS_BUCKET +:+ "/CBERS4/MUX/" +:+ s) s "5",
                 Dataset "epsg:32722" demo_bounds)) <$> crowd));
  warp_transform_bounds := λ _ _ b _, Ok b;
  mercantile_xy_bounds := demo_tile_box;
  mercantile_bounds := demo_tile_box;
  cbers_parse_scene_id := demo_parse;
  cbersl_parse_scene_id := demo_parse;
  sentinel_min_max_worker := sentinel_min_max_worker demo_env;
  tile_band_worker := tile_band_worker demo_env
|}.

(** [bounds("A")], then [bounds] of the 128 other scenes, then
    [bounds("A")] again, after the bounds of the asset have changed. *)
Definition crowded_process : list (Env * string) :=
  (crowd_env demo_bounds, "A")
    :: ((λ s, (crowd_env demo_bounds, s)) <$> crowd)
    ++ [(crowd_env (Box (-54) (-25) (-52) (-24)), "A")].

Definition demo_params : scene_params := SceneParams "CBERS4/MUX/A".

(** A scheduler that lets the youngest running task finish first and, on a
    failure, has one more task started. *)
Definition demo_sched : scheduler := Scheduler [2; 1; 1] 1.

(** ** Further vocabulary *)

(** The entries a run of calls would store, oldest first: the results of
    the calls that return. *)
Definition new_entries {E K V} (func : E → K → M V) (calls : list (E * K))
    : list (K * V) :=
  omap (λ call, match outcome (func call.1 call.2) with
                | Ok v => Some (call.2, v)
                | Err _ => None
                end) calls.

(** The call returned a value. *)
Definition returned {A} (m : M A) : bool :=
  match outcome m with Ok _ => true | Err _ => false end.

(** Every entry of the cache is a result that a call of the history
    [hist] computes for the entry's arguments. *)
Definition cache_from {E K V} (func : E → K → M V) (hist : list (E * K))
    (c : list (K * V)) : Prop :=
  ∀ k v, (k, v) ∈ c →
    ∃ j env, hist !! j = Some (env, k) ∧ outcome (func env k) = Ok v.

(** The scene ["A"] read by workers whose grids have as many pixels as
    their address has characters: the files of bands ["5"] and ["10"] give
    grids of different shapes. *)
Definition demo_env_ragged : Env := {|
  assets := assets demo_env;
  warp_transform_bounds := warp_transform_bounds demo_env;
  mercantile_xy_bounds := demo_tile_box;
  mercantile_bounds := demo_tile_box;
  cbers_parse_scene_id := demo_parse;
  cbersl_parse_scene_id := demo_parse;
  sentinel_min_max_worker := sentinel_min_max_worker demo_env;
  tile_band_worker := λ a _ _, Ok (Nd (replicate (String.length a) (Px 0)))
|}.

(** * Properties *)

(** ** The monad *)

Global Instance Ok_inj {A} : Inj (=) (=) (@Ok A).
Proof. by intros ?? [=]. Qed.


Lemma bind_ok {A B} (t : list event) (a : A) (f : A → M B) :
  ((t, Ok a) ≫= f) = (t ++ trace (f a), outcome (f a)).
Proof. unfold mbind, M_bind, trace, outcome. by destruct (f a). Qed.

Lemma bind_lift_ok {A B} (a : A) (f : A → M B) : (lift (Ok a) ≫= f) = f a.
Proof. unfold lift. rewrite bind_ok. by destruct (f a). Qed.

Lemma bind_ret {A B} (a : A) (f : A → M B) : (mret a ≫= f) = f a.
Proof. apply (bind_lift_ok a f). Qed.

Lemma outcome_bind {A B} (m : M A) (f : A → M B) :
  outcome (m ≫= f) =
  match outcome m with Ok a => outcome (f a) | Err e => Err e end.
Proof. destruct m as [t [a|e]]; [by rewrite bind_ok | done]. Qed.

Lemma trace_bind {A B} (m : M A) (f : A → M B) :
  trace (m ≫= f) =
  trace m ++ match outcome m with Ok a => trace (f a) | Err _ => [] end.
Proof.
  destruct m as [t [a|e]]; [by rewrite bind_ok |].
  simpl. by rewrite app_nil_r.
Qed.

(** Reducing the binds of a goal, leaving the addresses folded. *)
Ltac mred :=
  cbn -[band_address preview_address cbers_address_of executor_map
        np_stack dict zip_with].

(** ** The pool: the collected results do not depend on the scheduler *)

Lemma collect_ok {A} (rs : list (result A)) (vs : list A) :
  collect rs = Ok vs ↔ rs = Ok <$> vs.
Proof.
  revert vs. induction rs as [|[v|e] rs IH]; intros vs; simpl.
  - split; [intros [= <-]; done | by destruct vs].
  - destruct (collect rs) as [ws|e'] eqn:E.
    + split.
      * intros [= <-]. simpl. f_equal. by apply IH.
      * destruct vs as [|v' vs]; [done|]. intros [= -> Hrs].
        apply IH in Hrs. by simplify_eq.
    + split; [done|]. destruct vs as [|v' vs]; [done|]. intros [= -> Hrs].
      apply IH in Hrs. done.
  - split; [done | by destruct vs].
Qed.

(** [collect] fails exactly with the first exception in the list. *)
Lemma collect_err {A} (rs : list (result A)) (e : exn) :
  collect rs = Err e ↔
  ∃ (vs : list A) (rest : list (result A)), rs = (Ok <$> vs) ++ Err e :: rest.
Proof.
  revert e. induction rs as [|[v|e'] rs IH]; intros e; simpl.
  - split; [done|]. intros (vs & rest & H). by destruct vs.
  - destruct (collect rs) as [ws|e''] eqn:E.
    + split; [done|]. intros (vs & rest & H). destruct vs as [|v' vs]; [done|].
      simpl in H. injection H as -> H.
      assert (Ok ws = Err e) as Hc by (apply IH; eauto). done.
    + split.
      * intros [= ->]. destruct (proj1 (IH e) eq_refl) as (vs & rest & ->).
        by exists (v :: vs), rest.
      * intros (vs & rest & H). destruct vs as [|v' vs]; [done|].
        simpl in H. injection H as -> H. apply IH. eauto.
  - split.
    + intros [= ->]. by exists [], rs.
    + intros (vs & rest & H). destruct vs as [|v' vs]; simpl in H; congruence.
Qed.

Lemma completion_order_perm (w fuel : nat) (sched pending : list nat) :
  (0 < w)%nat → (length pending ≤ fuel)%nat →
  completion_order w fuel sched pending ≡ₚ pending.
Proof.
  intros Hw. revert sched pending.
  induction fuel as [|fuel IH]; intros sched pending Hlen.
  - destruct pending; [done | simpl in Hlen; lia].
  - destruct pending as [|p0 rest]; [done|].
    cbn [completion_order].
    set (pending := p0 :: rest) in *.
    set (k := (hd 0%nat sched `mod` length (take w pending))%nat).
    assert (k < length pending)%nat as Hk.
    { assert (0 < length (take w pending))%nat as Hpos.
      { rewrite length_take. subst pending. simpl. lia. }
      pose proof (Nat.mod_upper_bound (hd 0%nat sched) _
        (Nat.neq_sym _ _ (Nat.lt_neq _ _ Hpos))) as Hub.
      fold k in Hub. rewrite length_take in Hub. lia. }
    destruct (lookup_lt_is_Some_2 pending k Hk) as [x Hx].
    rewrite (nth_lookup_Some _ _ p0 _ Hx).
    etrans; [|symmetry; apply (delete_Permutation pending k x Hx)].
    constructor. apply IH.
    rewrite length_delete by eauto. subst pending. simpl in *. lia.
Qed.

Lemma elem_of_finished (addresses : list string) (order : list nat) i a :
  (i, a) ∈ finished addresses order ↔ i ∈ order ∧ addresses !! i = Some a.
Proof.
  unfold finished. rewrite list_elem_of_omap. split.
  - intros (j & Hj & Heq).
    destruct (addresses !! j) as [a'|] eqn:E; simplify_eq/=. done.
  - intros [Hi Ha]. exists i. by rewrite Ha.
Qed.

Lemma futures_done_lookup_gen {A} (f : string → result A)
    (done : list (nat * string)) (m : gmap nat (result A)) i a :
  (∀ a', (i, a') ∈ done → a' = a) →
  (i, a) ∈ done ∨ m !! i = Some (f a) →
  foldl (λ m ia, <[ia.1 := f ia.2]> m) m done !! i = Some (f a).
Proof.
  revert m. induction done as [|[j b] done IH]; intros m Hfun Hin; simpl.
  - destruct Hin as [Hin|Hm]; [by apply elem_of_nil in Hin | done].
  - apply IH.
    + intros a' Ha'. apply Hfun. by right.
    + destruct (decide (j = i)) as [->|Hne].
      * right. rewrite lookup_insert_eq. f_equal. f_equal.
        apply Hfun. by left.
      * destruct Hin as [Hin|Hm].
        -- apply elem_of_cons in Hin as [[= ? ?]|Hin]; [congruence | by left].
        -- right. by rewrite lookup_insert_ne.
Qed.

Lemma futures_done_lookup {A} (f : string → result A)
    (addresses : list string) (order : list nat) i a :
  i ∈ order → addresses !! i = Some a →
  futures_done f (finished addresses order) !! i = Some (f a).
Proof.
  intros Hi Ha. apply futures_done_lookup_gen.
  - intros a' [_ Ha']%elem_of_finished. congruence.
  - left. by apply elem_of_finished.
Qed.

Lemma first_error_lt {A} (rs : list (result A)) (i : nat) :
  first_error rs = Some i → (i < length rs)%nat.
Proof.
  revert i. induction rs as [|[v|e] rs IH]; intros i; cbn; [done| |].
  - destruct (first_error rs) as [k|]; [|done]. intros [= <-].
    specialize (IH k eq_refl). lia.
  - intros [= <-]. lia.
Qed.

Lemma started_le {A} (sched : scheduler) (rs : list (result A)) :
  (started sched rs ≤ length rs)%nat.
Proof. unfold started. destruct (first_error rs); lia. Qed.

(** The tasks the iterator waits for have all been started. *)
Lemma started_covers {A} (sched : scheduler) (rs : list (result A)) :
  match first_error rs with
  | Some k => (k < started sched rs)%nat
  | None => (length rs ≤ started sched rs)%nat
  end.
Proof.
  unfold started. destruct (first_error rs) as [k|] eqn:E; [|done].
  apply first_error_lt in E. lia.
Qed.

Lemma result_iterator_collect {A} (f : string → result A)
    (done : gmap nat (result A)) (xs : list string) (i m : nat) :
  (∀ j a, xs !! j = Some a → (j < m)%nat →
          done !! (i + j)%nat = Some (f a)) →
  match first_error (f <$> xs) with
  | Some k => (k < m)%nat
  | None => (length xs ≤ m)%nat
  end →
  result_iterator done i (length xs) = collect (f <$> xs).
Proof.
  revert i m. induction xs as [|x xs IH]; intros i m Hdone Hm; [done|].
  cbn [length result_iterator fmap list_fmap collect first_error] in *.
  assert (0 < m)%nat as Hpos.
  { destruct (f x); [destruct (first_error _); cbn in Hm|]; lia. }
  pose proof (Hdone 0%nat x eq_refl Hpos) as H0. rewrite Nat.add_0_r in H0.
  rewrite H0. destruct (f x) as [v|e]; [|done].
  rewrite (IH (S i) (pred m)); [done| |].
  - intros j a Hj Hlt. replace (S i + j)%nat with (i + S j)%nat by lia.
    apply Hdone; [done | lia].
  - destruct (first_error _); cbn in Hm; lia.
Qed.

(** The list that [executor.map] yields is the list of the workers'
    outcomes in submission order, read until the first exception, for every
    scheduler. *)
Lemma executor_map_outcome {A} (w : nat) (sched : scheduler)
    (f : string → result A) (xs : list string) :
  w ≠ 0%nat → outcome (executor_map w sched f xs) = collect (f <$> xs).
Proof.
  intros Hw. unfold executor_map. case_decide; [done|]. cbn [outcome snd].
  apply (result_iterator_collect f _ xs 0 (started sched (f <$> xs))).
  2: { pose proof (started_covers sched (f <$> xs)) as Hc.
       by rewrite length_fmap in Hc. }
  intros j a Hj Hlt. cbn [Nat.add].
  apply futures_done_lookup; [|done].
  rewrite completion_order_perm; [| lia | by rewrite length_seq].
  apply elem_of_seq. lia.
Qed.

Lemma finished_seq (xs : list string) :
  finished xs (seq 0 (length xs)) = zip (seq 0 (length xs)) xs.
Proof.
  unfold finished. induction xs as [|x xs IH] using rev_ind; [done|].
  rewrite length_app, Nat.add_1_r, seq_S, omap_app.
  rewrite zip_with_app by (by rewrite length_seq). f_equal.
  - rewrite <- IH. apply list_omap_ext, Forall2_same_length_lookup_2; [done|].
    intros i a b Ha Hb. assert (a = b) as <- by congruence.
    apply lookup_seq in Ha as [-> Hlt]. cbn. by rewrite lookup_app_l.
  - cbn. rewrite lookup_app_r, Nat.sub_diag by done. done.
Qed.

Lemma finished_take (xs : list string) (m : nat) (order : list nat) :
  Forall (λ i, (i < m)%nat) order →
  finished xs order = finished (take m xs) order.
Proof.
  intros Hall. unfold finished. apply list_omap_ext.
  apply Forall2_same_length_lookup_2; [done|].
  intros i a b Ha Hb. assert (a = b) as <- by congruence.
  rewrite Forall_lookup in Hall. specialize (Hall i a Ha). cbn in Hall.
  by rewrite lookup_take_lt.
Qed.

(** The tasks that run are the first [started] ones, each once, whatever
    the scheduler does. *)
Lemma executor_map_trace {A} (w : nat) (sched : scheduler)
    (f : string → result A) (xs : list string) :
  w ≠ 0%nat →
  trace (executor_map w sched f xs)
  ≡ₚ runs (take (started sched (f <$> xs)) xs).
Proof.
  intros Hw. unfold executor_map, runs. case_decide; [done|].
  cbn [trace fst]. set (m := started sched (f <$> xs)).
  assert (m ≤ length xs)%nat as Hm.
  { subst m. etrans; [apply started_le|]. by rewrite length_fmap. }
  assert (completion_order w m (picks sched) (seq 0 m) ≡ₚ seq 0 m) as Hperm.
  { apply completion_order_perm; [lia | by rewrite length_seq]. }
  apply fmap_Permutation.
  rewrite (finished_take xs m).
  - rewrite <- (finished_seq (take m xs)).
    replace (length (take m xs)) with m by (rewrite length_take; lia).
    unfold finished. by apply omap_Permutation.
  - apply Forall_forall. intros i Hi. rewrite Hperm in Hi.
    apply elem_of_seq in Hi. lia.
Qed.

(** ** The three functions, step by step *)

Lemma bounds_unfold (env : Env) (sceneid : string) :
  bounds env sceneid =
  match cbers_parse_scene_id env sceneid with
  | Err e => ([], Err e)
  | Ok p =>
      let ref := band_address (cbers_address_of p) sceneid "5" in
      match assets env !! ref with
      | None => ([EOpen ref], Err (Raise IOError ref))
      | Some ds =>
          let tr := ETransform (crs ds) "epsg:4326" (ds_bounds ds) 21 in
          match warp_transform_bounds env (crs ds) "epsg:4326" (ds_bounds ds) 21 with
          | Err e => ([EOpen ref; tr], Err e)
          | Ok wgs =>
              ([EOpen ref; tr],
               Ok {| b_sceneid := sceneid; b_bounds := list_of_box wgs |})
          end
      end
  end.
Proof.
  unfold bounds. destruct (cbers_parse_scene_id env sceneid) as [p|e]; [|reflexivity].
  rewrite bind_lift_ok. cbn zeta. unfold rasterio_open.
  destruct (assets env !! _) as [ds|]; [|reflexivity].
  unfold transform_bounds. mred.
  destruct (warp_transform_bounds env _ _ _ _); reflexivity.
Qed.

Lemma tile_unfold (env : Env) (sched : scheduler) (sceneid : string)
    (tile_x tile_y tile_z : Z) (rgb : rgb_arg) (tilesize : Z) :
  tile env sched sceneid tile_x tile_y tile_z rgb tilesize =
  match cbers_parse_scene_id env sceneid with
  | Err e => ([], Err e)
  | Ok p =>
      let ref := band_address (cbers_address_of p) sceneid "5" in
      match assets env !! ref with
      | None => ([EOpen ref], Err (Raise IOError ref))
      | Some ds =>
          let tr := ETransform (crs ds) "epsg:4326" (ds_bounds ds) 21 in
          match warp_transform_bounds env (crs ds) "epsg:4326" (ds_bounds ds) 21 with
          | Err e => ([EOpen ref; tr], Err e)
          | Ok wgs =>
              let rest :=
                tile_from_bounds env sched sceneid tile_x tile_y tile_z rgb
                  tilesize (cbers_address_of p) wgs in
              ([EOpen ref; tr] ++ trace rest, outcome rest)
          end
      end
  end.
Proof.
  unfold tile. destruct (cbers_parse_scene_id env sceneid) as [p|e]; [|reflexivity].
  rewrite bind_lift_ok. cbn zeta. unfold rasterio_open.
  destruct (assets env !! _) as [ds|]; [|reflexivity].
  unfold transform_bounds. mred.
  destruct (warp_transform_bounds env _ _ _ _) as [wgs|e]; [|reflexivity].
  unfold tile_from_bounds, tile_fan_out.
  destruct (tile_exists env wgs tile_z tile_x tile_y); cbn [negb]; [|reflexivity].
  mred. match goal with |- context [?a ≫= ?f] => destruct (a ≫= f) as [t r] end.
  reflexivity.
Qed.

Lemma metadata_unfold (env : Env) (sched : scheduler) (sceneid : string)
    (pmin pmax : Z) :
  metadata env sched sceneid pmin pmax =
  match cbersl_parse_scene_id env sceneid with
  | Err e => ([], Err e)
  | Ok p =>
      let prev := preview_address (cbers_address_of p) in
      match assets env !! prev with
      | None => ([EOpen prev], Err (Raise IOError prev))
      | Some ds =>
          let tr := ETransform (crs ds) "epsg:4326" (ds_bounds ds) 21 in
          match warp_transform_bounds env (crs ds) "epsg:4326" (ds_bounds ds) 21 with
          | Err e => ([EOpen prev; tr], Err e)
          | Ok wgs =>
              let rest :=
                metadata_from_bounds env sched sceneid pmin pmax
                  (cbers_address_of p) wgs in
              ([EOpen prev; tr] ++ trace rest, outcome rest)
          end
      end
  end.
Proof.
  unfold metadata.
  destruct (cbersl_parse_scene_id env sceneid) as [p|e]; [|reflexivity].
  rewrite bind_lift_ok. cbn zeta. unfold rasterio_open.
  destruct (assets env !! _) as [ds|]; [|reflexivity].
  unfold transform_bounds. mred.
  destruct (warp_transform_bounds env _ _ _ _) as [wgs|e]; [|reflexivity].
  unfold metadata_from_bounds.
  mred. match goal with |- context [?a ≫= ?f] => destruct (a ≫= f) as [t r] end.
  reflexivity.
Qed.

(** ** Bounds *)

(** C9. For a scene id that the scene-id parser accepts, [bounds] opens
    exactly one raster, the scene's BAND5 file; when the file is there, it
    hands the file's CRS and native bounds to one bounds transform towards
    ["epsg:4326"] with [densify_pts = 21] (so at least 21 points per edge)
    and reports what the transform returns. *)
Theorem bounds_opens_reference_band (env : Env) (sceneid : string)
    (p : scene_params) :
  cbers_parse_scene_id env sceneid = Ok p →
  let ref := band_address (cbers_address_of p) sceneid "5" in
  opens (trace (bounds env sceneid)) = [ref]
  ∧ (∀ src dst b n,
       ETransform src dst b n ∈ trace (bounds env sceneid) →
       dst = "epsg:4326" ∧ (21 ≤ n)%Z
       ∧ ∃ ds, assets env !! ref = Some ds ∧ src = crs ds ∧ b = ds_bounds ds)
  ∧ (∀ ds, assets env !! ref = Some ds →
       trace (bounds env sceneid)
       = [EOpen ref; ETransform (crs ds) "epsg:4326" (ds_bounds ds) 21]
       ∧ outcome (bounds env sceneid)
         = match warp_transform_bounds env (crs ds) "epsg:4326"
                   (ds_bounds ds) 21 with
           | Ok wgs =>
               Ok {| b_sceneid := sceneid; b_bounds := list_of_box wgs |}
           | Err e => Err e
           end).
Proof.
  intros Hp ref. rewrite bounds_unfold, Hp. cbn zeta. fold ref.
  destruct (assets env !! ref) as [ds|] eqn:Hds.
  - assert (∀ r : result bounds_info,
      opens (trace ([EOpen ref;
        ETransform (crs ds) "epsg:4326" (ds_bounds ds) 21], r)) = [ref])
      as Hopens by done.
    destruct (warp_transform_bounds env _ _ _ _) as [wgs|e] eqn:Hw;
      (split; [apply Hopens|]);
      (split; [|intros ? [= <-]; rewrite Hw; split; reflexivity]).
    all: intros src dst b n Hin; cbn in Hin.
    all: apply elem_of_cons in Hin as [?|Hin]; [done|].
    all: apply list_elem_of_singleton in Hin; simplify_eq.
    all: split; [done|]; split; [lia|]; by exists ds.
  - split; [done|]. split; [|done].
    intros src dst b n Hin. cbn in Hin.
    by apply list_elem_of_singleton in Hin.
Qed.

(** C7. The first step of [tile] is the computation of [bounds]: when
    [bounds] fails, [tile] fails with the same exception after the same
    events; when [bounds] succeeds, [tile] has made the same open and the
    same transform, and the box it hands to the containment check is the
    box that [bounds] reports. *)
Theorem tile_bounds_agree_with_bounds (env : Env) (sched : scheduler)
    (sceneid : string) (tile_x tile_y tile_z : Z) (rgb : rgb_arg)
    (tilesize : Z) :
  let t := tile env sched sceneid tile_x tile_y tile_z rgb tilesize in
  match outcome (bounds env sceneid) with
  | Err e => t = (trace (bounds env sceneid), Err e)
  | Ok info =>
      ∃ p wgs,
        cbers_parse_scene_id env sceneid = Ok p
        ∧ b_bounds info = list_of_box wgs
        ∧ let rest :=
            tile_from_bounds env sched sceneid tile_x tile_y tile_z rgb
              tilesize (cbers_address_of p) wgs in
          t = (trace (bounds env sceneid) ++ trace rest, outcome rest)
  end.
Proof.
  cbn zeta. rewrite tile_unfold, bounds_unfold.
  destruct (cbers_parse_scene_id env sceneid) as [p|e]; [|done].
  cbn zeta. destruct (assets env !! _) as [ds|]; [|done].
  destruct (warp_transform_bounds env _ _ _ _) as [wgs|e]; [|done].
  cbn [outcome snd trace fst]. by exists p, wgs.
Qed.

(** ** The band argument of [tile] *)

(** C6. A band given as a bare string is coerced to a one-element tuple:
    the call with ["b"] is the call with [("b",)], events and result, and
    in a fresh process the decorated calls agree as well. *)
Theorem tile_str_is_tuple (env : Env) (sched : scheduler) (sceneid : string)
    (tile_x tile_y tile_z : Z) (b : string) (tilesize : Z) :
  coerce_rgb (RgbStr b) = RgbTuple [b]
  ∧ tile env sched sceneid tile_x tile_y tile_z (RgbStr b) tilesize
    = tile env sched sceneid tile_x tile_y tile_z (RgbTuple [b]) tilesize
  ∧ (cached_tile env sched
       (sceneid, tile_x, tile_y, tile_z, RgbStr b, tilesize) []).1
    = (cached_tile env sched
       (sceneid, tile_x, tile_y, tile_z, RgbTuple [b], tilesize) []).1.
Proof.
  split; [done|].
  assert (tile env sched sceneid tile_x tile_y tile_z (RgbStr b) tilesize
    = tile env sched sceneid tile_x tile_y tile_z (RgbTuple [b]) tilesize)
    as Heq by reflexivity.
  split; [done|].
  unfold cached_tile, lru_cache, tile_call. cbn [cache_get]. rewrite Heq.
  by destruct (tile _ _ _ _ _ _ _ _) as [t [v|e]].
Qed.

(** With the empty tuple as [rgb], every path through [tile] ends in an
    exception. *)
Lemma tile_empty_rgb_cases (env : Env) (sched : scheduler)
    (sceneid : string) (tile_x tile_y tile_z : Z) (tilesize : Z) :
  let r :=
    outcome (tile env sched sceneid tile_x tile_y tile_z (RgbTuple [])
               tilesize) in
  (∃ e, r = Err e)
  ∧ r = match cbers_parse_scene_id env sceneid with
        | Err e => Err e
        | Ok p =>
            let ref := band_address (cbers_address_of p) sceneid "5" in
            match assets env !! ref with
            | None => Err (Raise IOError ref)
            | Some ds =>
                match warp_transform_bounds env (crs ds) "epsg:4326"
                        (ds_bounds ds) 21 with
                | Err e => Err e
                | Ok wgs =>
                    if tile_exists env wgs tile_z tile_x tile_y
                    then Err (Raise ValueError
                                "need at least one array to stack")
                    else Err (Raise TileOutsideBounds
                                (outside_message tile_z tile_x tile_y))
                end
            end
        end.
Proof.
  cbn zeta. rewrite tile_unfold.
  destruct (cbers_parse_scene_id env sceneid) as [p|e]; [|by eauto].
  cbn zeta. destruct (assets env !! _) as [ds|]; [|by eauto].
  destruct (warp_transform_bounds env _ _ _ _) as [wgs|e]; [|by eauto].
  cbn [outcome snd]. unfold tile_from_bounds.
  destruct (tile_exists env wgs tile_z tile_x tile_y); [|by eauto].
  unfold tile_fan_out. by eauto.
Qed.

(** ** The containment check *)

Lemma boxes_overlap_true (a b : box) :
  boxes_overlap a b = true ↔
  (left a <= right b)%Q ∧ (left b <= right a)%Q
  ∧ (bottom a <= top b)%Q ∧ (bottom b <= top a)%Q.
Proof.
  unfold boxes_overlap. rewrite !andb_true_iff, !Qle_bool_iff. tauto.
Qed.

Lemma overlapping_test (a b : box) :
  overlapping a b → boxes_overlap a b = true.
Proof.
  intros (x & y & (H1 & H2 & H3 & H4) & (H5 & H6 & H7 & H8)).
  apply boxes_overlap_true. eauto 10 using Qle_trans.
Qed.

(** A common point of two closed intervals that meet. *)
Lemma interval_meet (l1 r1 l2 r2 : Q) :
  (l1 <= r1)%Q → (l2 <= r2)%Q → (l1 <= r2)%Q → (l2 <= r1)%Q →
  ∃ x, (l1 <= x)%Q ∧ (x <= r1)%Q ∧ (l2 <= x)%Q ∧ (x <= r2)%Q.
Proof.
  intros H1 H2 H3 H4. destruct (Qlt_le_dec l1 l2) as [Hlt|Hle].
  - exists l2. auto using Qlt_le_weak, Qle_refl.
  - exists l1. auto using Qle_refl.
Qed.

Lemma test_overlapping (a b : box) :
  wf_box a → wf_box b → boxes_overlap a b = true → overlapping a b.
Proof.
  intros [Ha1 Ha2] [Hb1 Hb2] (H1 & H2 & H3 & H4)%boxes_overlap_true.
  destruct (interval_meet _ _ _ _ Ha1 Hb1 H1 H2) as (x & ? & ? & ? & ?).
  destruct (interval_meet _ _ _ _ Ha2 Hb2 H3 H4) as (y & ? & ? & ? & ?).
  exists x, y. by repeat split.
Qed.

Lemma test_disjoint (a b : box) :
  boxes_overlap a b = false → disjoint_boxes a b.
Proof.
  intros Hf x y [Ha Hb].
  assert (boxes_overlap a b = true) by (apply overlapping_test; by exists x, y).
  congruence.
Qed.

Lemma disjoint_test (a b : box) :
  wf_box a → wf_box b → disjoint_boxes a b → boxes_overlap a b = false.
Proof.
  intros Ha Hb Hd. destruct (boxes_overlap a b) eqn:E; [|done].
  destruct (test_overlapping a b Ha Hb E) as (x & y & H). by destruct (Hd x y).
Qed.

(** Where an exception of the fan-out of [tile] can come from. *)
Lemma tile_fan_out_error (env : Env) (sched : scheduler) (sceneid : string)
    (tile_x tile_y tile_z : Z) (rgb : rgb_arg) (tilesize : Z)
    (cbers_address : string) (e : exn) :
  outcome (tile_fan_out env sched sceneid tile_x tile_y tile_z rgb tilesize
             cbers_address) = Err e →
  exn_cls e = TypeError ∨ exn_cls e = ValueError
  ∨ ∃ a, tile_band_worker env a
           (mercantile_xy_bounds env tile_x tile_y tile_z) tilesize = Err e.
Proof.
  unfold tile_fan_out. rewrite outcome_bind.
  destruct (outcome (iter_rgb (coerce_rgb rgb))) as [bands|e'] eqn:Hb.
  - rewrite outcome_bind, executor_map_outcome by done.
    destruct (collect _) as [arrays|e'] eqn:Hc.
    + unfold np_stack. destruct arrays as [|a rest].
      * intros [= <-]. by right; left.
      * destruct (forallb _ _); [done|]. intros [= <-]. by right; left.
    + intros [= ->]. right; right.
      apply collect_err in Hc as (vs & rest & Hc).
      assert (Err e ∈ (λ a, tile_band_worker env a
        (mercantile_xy_bounds env tile_x tile_y tile_z) tilesize)
        <$> (band_address cbers_address sceneid <$> bands)) as Hin.
      { rewrite Hc. apply elem_of_app. right. by left. }
      apply list_elem_of_fmap in Hin as (a & Ha & _). eauto.
  - intros [= ->]. left. by destruct rgb; simplify_eq/=.
Qed.

(** C1. For a scene whose id parses and whose reference band yields the
    geographic bounds [wgs] (a proper box, like the tile's footprint): when
    the footprint of the tile is disjoint from [wgs], [tile] raises
    [TileOutsideBounds] and runs no band worker; when the footprint
    overlaps [wgs], the call is the fan-out over the bands, and it raises no
    [TileOutsideBounds] unless a band worker does. *)
Theorem tile_outside_bounds_iff_disjoint (env : Env) (sched : scheduler)
    (sceneid : string) (tile_x tile_y tile_z : Z) (rgb : rgb_arg)
    (tilesize : Z) (p : scene_params) (ds : dataset) (wgs : box) :
  let ref := band_address (cbers_address_of p) sceneid "5" in
  let footprint := mercantile_bounds env tile_x tile_y tile_z in
  cbers_parse_scene_id env sceneid = Ok p →
  assets env !! ref = Some ds →
  warp_transform_bounds env (crs ds) "epsg:4326" (ds_bounds ds) 21 = Ok wgs →
  wf_box wgs → wf_box footprint →
  let t := tile env sched sceneid tile_x tile_y tile_z rgb tilesize in
  let pre := [EOpen ref; ETransform (crs ds) "epsg:4326" (ds_bounds ds) 21] in
  let fan_out :=
    tile_fan_out env sched sceneid tile_x tile_y tile_z rgb tilesize
      (cbers_address_of p) in
  (disjoint_boxes footprint wgs →
     t = (pre, Err (Raise TileOutsideBounds
                      (outside_message tile_z tile_x tile_y))))
  ∧ (overlapping footprint wgs →
       t = (pre ++ trace fan_out, outcome fan_out)
       ∧ ((∀ a, ¬ raises TileOutsideBounds
                   (tile_band_worker env a
                      (mercantile_xy_bounds env tile_x tile_y tile_z)
                      tilesize)) →
          ¬ raises TileOutsideBounds (outcome t))).
Proof.
  intros ref footprint Hp Hds Hw Hwf1 Hwf2 t pre fan_out.
  assert (t = (pre ++ trace (tile_from_bounds env sched sceneid tile_x tile_y
      tile_z rgb tilesize (cbers_address_of p) wgs),
    outcome (tile_from_bounds env sched sceneid tile_x tile_y
      tile_z rgb tilesize (cbers_address_of p) wgs))) as Ht.
  { subst t. rewrite tile_unfold, Hp. cbn zeta. fold ref. by rewrite Hds, Hw. }
  unfold tile_from_bounds, tile_exists in Ht. fold footprint in Ht.
  split.
  - intros Hdis. rewrite (disjoint_test _ _ Hwf2 Hwf1 Hdis) in Ht.
    rewrite Ht. reflexivity.
  - intros Hov. rewrite (overlapping_test _ _ Hov) in Ht. fold fan_out in Ht.
    split; [done|]. intros Hworkers [msg Hraise]. rewrite Ht in Hraise.
    cbn [outcome snd] in Hraise.
    apply tile_fan_out_error in Hraise as [?|[?|[a Ha]]]; [done|done|].
    apply (Hworkers a). by exists msg.
Qed.

(** ** Stacking *)

Lemma np_stack_ok (arrays : list ndarray) (out : ndarray) :
  outcome (np_stack arrays) = Ok out ↔
  out = Nd arrays ∧ arrays ≠ [] ∧ same_shape arrays.
Proof.
  unfold np_stack. destruct arrays as [|a rest]; [naive_solver|].
  destruct (forallb _ rest) eqn:E; cbn [outcome snd mret M_ret raise].
  - assert (Forall (λ b, shape b = shape a) rest) as Hall.
    { apply Is_true_true_2, forallb_True in E.
      eapply Forall_impl; [exact E|]. intros b Hb. cbn in Hb.
      by apply bool_decide_unpack in Hb. }
    rewrite Forall_forall in Hall.
    split; [intros [= <-]|naive_solver]. split_and!; [done..|].
    intros x y [->|Hx]%elem_of_cons [->|Hy]%elem_of_cons; auto.
    + symmetry; auto.
    + by rewrite (Hall x Hx), (Hall y Hy).
  - split; [done|]. intros (_ & _ & Hs). exfalso.
    assert (forallb (λ b, bool_decide (shape b = shape a)) rest = true);
      [|congruence].
    apply Is_true_true_1, forallb_True, Forall_forall. intros b Hb.
    apply bool_decide_pack, Hs; [by right | by left].
Qed.

(** When [tile] returns, and what. *)
Lemma tile_ok_iff (env : Env) (sched : scheduler) (sceneid : string)
    (tile_x tile_y tile_z : Z) (bands : list string) (tilesize : Z)
    (out : ndarray) :
  outcome (tile env sched sceneid tile_x tile_y tile_z (RgbTuple bands)
             tilesize) = Ok out ↔
  ∃ p ds wgs grids,
    cbers_parse_scene_id env sceneid = Ok p
    ∧ assets env !! band_address (cbers_address_of p) sceneid "5" = Some ds
    ∧ warp_transform_bounds env (crs ds) "epsg:4326" (ds_bounds ds) 21 = Ok wgs
    ∧ tile_exists env wgs tile_z tile_x tile_y = true
    ∧ band_reader env sceneid tile_x tile_y tile_z tilesize p <$> bands
      = Ok <$> grids
    ∧ out = Nd grids ∧ grids ≠ [] ∧ same_shape grids.
Proof.
  rewrite tile_unfold.
  assert (∀ p,
    outcome (tile_fan_out env sched sceneid tile_x tile_y tile_z
               (RgbTuple bands) tilesize (cbers_address_of p)) = Ok out ↔
    ∃ grids,
      band_reader env sceneid tile_x tile_y tile_z tilesize p <$> bands
      = Ok <$> grids
      ∧ out = Nd grids ∧ grids ≠ [] ∧ same_shape grids) as Hfan.
  { intros p. unfold tile_fan_out. cbn [coerce_rgb iter_rgb].
    rewrite bind_ret, outcome_bind, executor_map_outcome by done.
    rewrite <- list_fmap_compose.
    change (_ ∘ band_address (cbers_address_of p) sceneid)
      with (band_reader env sceneid tile_x tile_y tile_z tilesize p).
    destruct (collect _) as [arrays|e] eqn:Hc.
    - apply collect_ok in Hc. rewrite np_stack_ok. split.
      + intros H. by exists arrays.
      + intros (grids & Hg & H). rewrite Hc in Hg.
        apply (inj (fmap Ok)) in Hg as ->. done.
    - split; [done|]. intros (grids & Hg & _).
      apply collect_ok in Hg. congruence. }
  destruct (cbers_parse_scene_id env sceneid) as [p|e] eqn:Hp.
  2: { split; [done|]. intros (p' & ds' & wgs' & grids & Hp' & _). done. }
  cbn zeta. destruct (assets env !! _) as [ds|] eqn:Hds.
  2: { split; [done|]. intros (p' & ds' & wgs' & grids & Hp' & Hds' & _).
       congruence. }
  destruct (warp_transform_bounds env _ _ _ _) as [wgs|e] eqn:Hw.
  2: { split; [done|].
       intros (p' & ds' & wgs' & grids & Hp' & Hds' & Hw' & _).
       simplify_eq. congruence. }
  cbn [outcome snd]. unfold tile_from_bounds.
  destruct (tile_exists env wgs tile_z tile_x tile_y) eqn:Hex.
  - fold (outcome (tile_fan_out env sched sceneid tile_x tile_y tile_z
      (RgbTuple bands) tilesize (cbers_address_of p))).
    rewrite Hfan. split.
    + intros (grids & H). by exists p, ds, wgs, grids.
    + intros (p' & ds' & wgs' & grids & Hp' & Hds' & Hw' & _ & H).
      simplify_eq. by exists grids.
  - split; [done|].
    intros (p' & ds' & wgs' & grids & Hp' & Hds' & Hw' & Hex' & H).
    simplify_eq. congruence.
Qed.

(** ** Band order *)

Section readers.
Context {A B : Type} (reader : A → result B).

Lemma fmap_ok_omap (l : list A) (bs : list B) :
  reader <$> l = Ok <$> bs → bs = omap (read_ok reader) l.
Proof.
  revert bs. induction l as [|a l IH]; intros [|b bs] Heq; try done.
  injection Heq as Hb Hrest.
  assert (read_ok reader a = Some b) as Hr by (unfold read_ok; by rewrite Hb).
  cbn. rewrite Hr. f_equal. by apply IH.
Qed.

Lemma fmap_ok_of_all (l : list A) :
  (∀ a, a ∈ l → ∃ b, reader a = Ok b) →
  reader <$> l = Ok <$> omap (read_ok reader) l.
Proof.
  induction l as [|a l IH]; intros Hall; [done|].
  destruct (Hall a) as [b Hb]; [by left|].
  assert (read_ok reader a = Some b) as Hr by (unfold read_ok; by rewrite Hb).
  cbn. rewrite Hr, Hb. cbn. f_equal.
  apply IH. intros a' Ha'. apply Hall. by right.
Qed.

Lemma zip_read_ok (l : list A) :
  (∀ a, a ∈ l → ∃ b, reader a = Ok b) →
  zip l (omap (read_ok reader) l) = omap (λ a, b ← read_ok reader a; Some (a, b)) l.
Proof.
  induction l as [|a l IH]; intros Hall; [done|].
  destruct (Hall a) as [b Hb]; [by left|].
  assert (read_ok reader a = Some b) as Hr by (unfold read_ok; by rewrite Hb).
  cbn. rewrite Hr. cbn. f_equal.
  apply IH. intros a' Ha'. apply Hall. by right.
Qed.

Lemma fmap_ok_all (l : list A) (bs : list B) :
  reader <$> l = Ok <$> bs → ∀ a, a ∈ l → ∃ b, reader a = Ok b.
Proof.
  intros Heq a Ha.
  assert (reader a ∈ Ok <$> bs) as Hin.
  { rewrite <- Heq. apply list_elem_of_fmap. eauto. }
  apply list_elem_of_fmap in Hin as (b & Hb & _). eauto.
Qed.
End readers.

(** C2. When [tile] returns for a band tuple, the array it returns is the
    stack of the grids its band readers produce, band by band in the order
    of the tuple, whatever order the workers finish in; for a permutation
    of the tuple the call returns the grids under the same permutation. *)
Theorem tile_band_order (env : Env) (sched : scheduler) (sceneid : string)
    (tile_x tile_y tile_z : Z) (bands : list string) (tilesize : Z)
    (out : ndarray) :
  outcome (tile env sched sceneid tile_x tile_y tile_z (RgbTuple bands)
             tilesize) = Ok out →
  ∃ p grids,
    cbers_parse_scene_id env sceneid = Ok p
    ∧ out = Nd grids
    ∧ Forall2
        (λ band grid,
           band_reader env sceneid tile_x tile_y tile_z tilesize p band
           = Ok grid)
        bands grids
    ∧ (∀ sched',
         outcome (tile env sched' sceneid tile_x tile_y tile_z
                    (RgbTuple bands) tilesize) = Ok out)
    ∧ (∀ sched' bands',
         bands' ≡ₚ bands →
         ∃ grids',
           outcome (tile env sched' sceneid tile_x tile_y tile_z
                      (RgbTuple bands') tilesize) = Ok (Nd grids')
           ∧ Forall2
               (λ band grid,
                  band_reader env sceneid tile_x tile_y tile_z tilesize p band
                  = Ok grid)
               bands' grids'
           ∧ zip bands' grids' ≡ₚ zip bands grids).
Proof.
  intros Hout. pose proof Hout as Hout'.
  apply tile_ok_iff in Hout'
    as (p & ds & wgs & grids & Hp & Hds & Hw & Hex & Hg & -> & Hne & Hsh).
  set (reader := band_reader env sceneid tile_x tile_y tile_z tilesize p) in *.
  exists p, grids. split_and!; [done..| | |].
  - apply list_eq_Forall2 in Hg. by rewrite Forall2_fmap in Hg.
  - intros sched'. apply tile_ok_iff. by exists p, ds, wgs, grids.
  - intros sched' bands' Hperm.
    pose proof (fmap_ok_all reader _ _ Hg) as Hall.
    assert (∀ b, b ∈ bands' → ∃ g, reader b = Ok g) as Hall'.
    { intros b Hb. apply Hall. by rewrite <- Hperm. }
    pose proof (fmap_ok_omap reader _ _ Hg) as Hgrids.
    set (grids' := omap (read_ok reader) bands').
    assert (grids' ≡ₚ grids) as Hpg.
    { subst grids'. rewrite Hgrids. by apply omap_Permutation. }
    exists grids'. split_and!.
    + apply tile_ok_iff. exists p, ds, wgs, grids'.
      split_and!; [done|done|done|done| |done| |].
      * by apply fmap_ok_of_all.
      * intros Hnil. rewrite Hnil in Hpg. symmetry in Hpg.
        by apply Permutation_nil_r in Hpg.
      * intros a b Ha Hb. apply Hsh; by rewrite <- Hpg.
    + pose proof (fmap_ok_of_all reader bands' Hall') as Hg'.
      apply list_eq_Forall2 in Hg'. by rewrite Forall2_fmap in Hg'.
    + subst grids'. rewrite Hgrids, !zip_read_ok by done.
      by apply omap_Permutation.
Qed.

(** ** The band statistics *)

Section dict.
Context {V : Type}.
Implicit Types (pairs pre post : list (string * V)) (keys : list string)
  (vals : list V) (k : string) (v : V).





End dict.

Lemma opens_runs (addresses : list string) (t : list event) :
  t ≡ₚ runs addresses → opens t = [].
Proof.
  intros Hperm. apply Permutation_nil_r. unfold opens. rewrite Hperm.
  unfold runs. generalize (zip (seq 0 (length addresses)) addresses).
  intros l. by induction l.
Qed.

Lemma metadata_from_bounds_trace (env : Env) (sched : scheduler)
    (sceneid : string) (pmin pmax : Z) (cbers_address : string) (wgs : box) :
  let addresses := band_address cbers_address sceneid <$> metadata_bands in
  trace (metadata_from_bounds env sched sceneid pmin pmax cbers_address wgs)
  ≡ₚ runs (take (started sched
                   ((λ a, sentinel_min_max_worker env a pmin pmax)
                      <$> addresses)) addresses).
Proof.
  intros addresses. unfold metadata_from_bounds. rewrite trace_bind.
  rewrite executor_map_trace by done. fold addresses.
  destruct (outcome _); cbn [trace fst mret M_ret]; by rewrite app_nil_r.
Qed.

Lemma np_stack_trace (arrays : list ndarray) : trace (np_stack arrays) = [].
Proof.
  unfold np_stack. destruct arrays as [|a rest]; [done|].
  by destruct (forallb _ _).
Qed.

Lemma tile_fan_out_trace (env : Env) (sched : scheduler) (sceneid : string)
    (tile_x tile_y tile_z : Z) (bands : list string) (tilesize : Z)
    (cbers_address : string) :
  let addresses := band_address cbers_address sceneid <$> bands in
  trace (tile_fan_out env sched sceneid tile_x tile_y tile_z (RgbTuple bands)
           tilesize cbers_address)
  ≡ₚ runs (take (started sched
                   ((λ a, tile_band_worker env a
                            (mercantile_xy_bounds env tile_x tile_y tile_z)
                            tilesize) <$> addresses)) addresses).
Proof.
  intros addresses. unfold tile_fan_out. cbn [coerce_rgb iter_rgb].
  rewrite bind_ret, trace_bind, executor_map_trace by done. fold addresses.
  destruct (outcome _); [rewrite np_stack_trace|]; by rewrite app_nil_r.
Qed.

(** [metadata] reaches its parser under the name [cbersl_parse_scene_id],
    where [bounds] and [tile] use [cbers_parse_scene_id]; whatever that call
    raises is what the caller gets, before any asset is opened. *)
Lemma metadata_parse_failure (env : Env) (sched : scheduler)
    (sceneid : string) (pmin pmax : Z) (e : exn) :
  cbersl_parse_scene_id env sceneid = Err e →
  metadata env sched sceneid pmin pmax = ([], Err e).
Proof. intros He. by rewrite metadata_unfold, He. Qed.

Lemma metadata_ok_iff (env : Env) (sched : scheduler) (sceneid : string)
    (pmin pmax : Z) (info : metadata_info) :
  outcome (metadata env sched sceneid pmin pmax) = Ok info ↔
  ∃ p ds wgs responses,
    cbersl_parse_scene_id env sceneid = Ok p
    ∧ assets env !! preview_address (cbers_address_of p) = Some ds
    ∧ warp_transform_bounds env (crs ds) "epsg:4326" (ds_bounds ds) 21 = Ok wgs
    ∧ stats_reader env sceneid pmin pmax p <$> metadata_bands
      = Ok <$> responses
    ∧ info = {| m_sceneid := sceneid;
                m_bounds := list_of_box wgs;
                rgbMinMax := dict (zip metadata_bands responses) |}.
Proof.
  rewrite metadata_unfold.
  assert (∀ p wgs,
    outcome (metadata_from_bounds env sched sceneid pmin pmax
               (cbers_address_of p) wgs) = Ok info ↔
    ∃ responses,
      stats_reader env sceneid pmin pmax p <$> metadata_bands
      = Ok <$> responses
      ∧ info = {| m_sceneid := sceneid;
                  m_bounds := list_of_box wgs;
                  rgbMinMax := dict (zip metadata_bands responses) |})
    as Hfan.
  { intros p wgs. unfold metadata_from_bounds.
    rewrite outcome_bind, executor_map_outcome by done.
    rewrite <- list_fmap_compose.
    change (_ ∘ band_address (cbers_address_of p) sceneid)
      with (stats_reader env sceneid pmin pmax p).
    destruct (collect _) as [responses|e] eqn:Hc.
    - apply collect_ok in Hc. unfold outcome, mret, M_ret. cbn [snd]. split.
      + intros Heq. exists responses. split; [done | congruence].
      + intros (rs & Hg & ->). rewrite Hc in Hg.
        apply (inj (fmap Ok)) in Hg as ->. done.
    - split; [done|]. intros (rs & Hg & _).
      apply collect_ok in Hg. congruence. }
  destruct (cbersl_parse_scene_id env sceneid) as [p|e] eqn:Hp.
  2: { split; [done|]. intros (p' & ds' & wgs' & rs & Hp' & _). done. }
  cbn zeta. destruct (assets env !! _) as [ds|] eqn:Hds.
  2: { split; [done|]. intros (p' & ds' & wgs' & rs & Hp' & Hds' & _).
       congruence. }
  destruct (warp_transform_bounds env _ _ _ _) as [wgs|e] eqn:Hw.
  2: { split; [done|].
       intros (p' & ds' & wgs' & rs & Hp' & Hds' & Hw' & _).
       simplify_eq. congruence. }
  cbn [outcome snd].
  fold (outcome (metadata_from_bounds env sched sceneid pmin pmax
    (cbers_address_of p) wgs)).
  rewrite Hfan. split.
  - intros (rs & H). by exists p, ds, wgs, rs.
  - intros (p' & ds' & wgs' & rs & Hp' & Hds' & Hw' & Hg & ->).
    assert (p' = p) as -> by congruence.
    assert (ds' = ds) as -> by congruence.
    assert (wgs' = wgs) as -> by congruence.
    by exists rs.
Qed.


(** ** Worker failures *)

Lemma collect_first_error {A} (oks : list A) (e : exn)
    (rest : list (result A)) :
  collect ((Ok <$> oks) ++ Err e :: rest) = Err e.
Proof. apply collect_err. eauto. Qed.

Lemma first_error_app {A} (oks : list A) (e : exn) (rest : list (result A)) :
  first_error ((Ok <$> oks) ++ Err e :: rest) = Some (length oks).
Proof. induction oks as [|v oks IH]; cbn; [done|]. by rewrite IH. Qed.

Lemma started_first_error {A} (sched : scheduler) (oks : list A) (e : exn)
    (rest : list (result A)) :
  started sched ((Ok <$> oks) ++ Err e :: rest)
  = ((S (length oks) + reach sched)
       `min` length ((Ok <$> oks) ++ Err e :: rest))%nat.
Proof. unfold started. by rewrite first_error_app. Qed.

(** C8. Once the fan-out of [tile] or of [metadata] is reached, a failing
    worker aborts the call: when the outcomes of the workers, in band
    order, are values up to a first exception [e], the call fails with [e]
    itself, for every scheduler, whatever the later workers do; nothing is
    returned.  The call has run the tasks up to the failing one, and those
    behind it that had started, each once, and has done nothing else. *)
Theorem worker_failure_aborts (env : Env) (sched : scheduler)
    (sceneid : string) (p : scene_params) (ds : dataset) (wgs : box)
    (e : exn) :
  (∀ tile_x tile_y tile_z bands tilesize oks rest,
     let ref := band_address (cbers_address_of p) sceneid "5" in
     cbers_parse_scene_id env sceneid = Ok p →
     assets env !! ref = Some ds →
     warp_transform_bounds env (crs ds) "epsg:4326" (ds_bounds ds) 21
     = Ok wgs →
     tile_exists env wgs tile_z tile_x tile_y = true →
     band_reader env sceneid tile_x tile_y tile_z tilesize p <$> bands
     = (Ok <$> oks) ++ Err e :: rest →
     let t :=
       tile env sched sceneid tile_x tile_y tile_z (RgbTuple bands) tilesize in
     outcome t = Err e
     ∧ trace t
       ≡ₚ [EOpen ref; ETransform (crs ds) "epsg:4326" (ds_bounds ds) 21]
          ++ runs (take ((S (length oks) + reach sched) `min` length bands)
                     (band_address (cbers_address_of p) sceneid <$> bands)))
  ∧ (∀ pmin pmax oks rest,
       let prev := preview_address (cbers_address_of p) in
       cbersl_parse_scene_id env sceneid = Ok p →
       assets env !! prev = Some ds →
       warp_transform_bounds env (crs ds) "epsg:4326" (ds_bounds ds) 21
       = Ok wgs →
       stats_reader env sceneid pmin pmax p <$> metadata_bands
       = (Ok <$> oks) ++ Err e :: rest →
       let m := metadata env sched sceneid pmin pmax in
       outcome m = Err e
       ∧ trace m
         ≡ₚ [EOpen prev; ETransform (crs ds) "epsg:4326" (ds_bounds ds) 21]
            ++ runs (take ((S (length oks) + reach sched)
                             `min` length metadata_bands)
                       (band_address (cbers_address_of p) sceneid
                          <$> metadata_bands))).
Proof.
  split.
  - intros tile_x tile_y tile_z bands tilesize oks rest ref Hp Hds Hw Hex
      Hfail t.
    subst t. rewrite tile_unfold, Hp. cbn zeta. fold ref. rewrite Hds, Hw.
    cbn [outcome trace fst snd]. unfold tile_from_bounds. rewrite Hex. split.
    + fold (outcome (tile_fan_out env sched sceneid tile_x tile_y tile_z
        (RgbTuple bands) tilesize (cbers_address_of p))).
      unfold tile_fan_out. cbn [coerce_rgb iter_rgb].
      rewrite bind_ret, outcome_bind, executor_map_outcome by done.
      rewrite <- list_fmap_compose.
      change (_ ∘ band_address (cbers_address_of p) sceneid)
        with (band_reader env sceneid tile_x tile_y tile_z tilesize p).
      by rewrite Hfail, collect_first_error.
    + fold (trace (tile_fan_out env sched sceneid tile_x tile_y tile_z
        (RgbTuple bands) tilesize (cbers_address_of p))).
      rewrite tile_fan_out_trace. cbn zeta. rewrite <- list_fmap_compose.
      change (_ ∘ band_address (cbers_address_of p) sceneid)
        with (band_reader env sceneid tile_x tile_y tile_z tilesize p).
      rewrite Hfail, started_first_error, <- Hfail, length_fmap. done.
  - intros pmin pmax oks rest prev Hp Hds Hw Hfail m.
    subst m. rewrite metadata_unfold, Hp. cbn zeta. fold prev.
    rewrite Hds, Hw. cbn [outcome trace fst snd]. split.
    + fold (outcome (metadata_from_bounds env sched sceneid pmin pmax
        (cbers_address_of p) wgs)).
      unfold metadata_from_bounds.
      rewrite outcome_bind, executor_map_outcome by done.
      rewrite <- list_fmap_compose.
      change (_ ∘ band_address (cbers_address_of p) sceneid)
        with (stats_reader env sceneid pmin pmax p).
      by rewrite Hfail, collect_first_error.
    + fold (trace (metadata_from_bounds env sched sceneid pmin pmax
        (cbers_address_of p) wgs)).
      rewrite metadata_from_bounds_trace. cbn zeta.
      rewrite <- list_fmap_compose.
      change (_ ∘ band_address (cbers_address_of p) sceneid)
        with (stats_reader env sceneid pmin pmax p).
      rewrite Hfail, started_first_error, <- Hfail, length_fmap. done.
Qed.

(** ** The preview asset *)

Lemma append_inj_l (s a b : string) : s +:+ a = s +:+ b → a = b.
Proof. induction s as [|c s IH]; cbn; [done|]. intros [= H]. auto. Qed.

(** The preview is not the reference band file. *)
Lemma preview_is_not_reference (cbers_address sceneid : string) :
  preview_address cbers_address ≠ band_address cbers_address sceneid "5".
Proof.
  unfold preview_address, band_address. intros H%append_inj_l.
  cbn in H. injection H as H. revert H. generalize sceneid. clear sceneid.
  intros s H.
  do 11 (destruct s as [|? s]; cbn in H; [discriminate H|injection H as _ H]).
  destruct s; discriminate H.
Qed.

(** C3. The code breaks this claim.  [metadata] reaches the scene-id
    parser under the name [cbersl_parse_scene_id], where [bounds] and [tile]
    call [cbers_parse_scene_id].  When the call under that name raises,
    [metadata] fails with its exception for a scene id that the parser
    accepts and whose preview is in the store: the preview is not opened, no
    bounds are resolved, nothing is returned, and the failure is not the
    [IOError] of an unreachable preview. *)
Theorem metadata_fails_before_preview (env : Env) (sched : scheduler)
    (sceneid : string) (pmin pmax : Z) (p : scene_params) (ds : dataset)
    (e : exn) :
  cbers_parse_scene_id env sceneid = Ok p →
  assets env !! preview_address (cbers_address_of p) = Some ds →
  cbersl_parse_scene_id env sceneid = Err e →
  let m := metadata env sched sceneid pmin pmax in
  m = ([], Err e)
  ∧ opens (trace m) = []
  ∧ (∀ info, outcome m ≠ Ok info)
  ∧ (exn_cls e ≠ IOError → ¬ raises IOError (outcome m)).
Proof.
  intros _ _ He m.
  assert (m = ([], Err e)) as Hm.
  { subst m. by rewrite metadata_unfold, He. }
  rewrite Hm. split_and!; [done..|].
  intros Hcls [msg Hraise]. cbn in Hraise. injection Hraise as ->. done.
Qed.

(** When the call under the name [cbersl_parse_scene_id] returns, the one
    raster [metadata] opens is the preview, which is not the reference band
    file; an unreachable preview makes the call fail with the [IOError] of
    that open before any worker runs; the bounds of a returned result are
    the transformed bounds of the preview; and an [IOError] comes from the
    preview open, from the transform or from a band worker. *)
Lemma metadata_bounds_from_preview (env : Env) (sched : scheduler)
    (sceneid : string) (pmin pmax : Z) (p : scene_params) :
  cbersl_parse_scene_id env sceneid = Ok p →
  let prev := preview_address (cbers_address_of p) in
  let m := metadata env sched sceneid pmin pmax in
  opens (trace m) = [prev]
  ∧ prev ≠ band_address (cbers_address_of p) sceneid "5"
  ∧ (assets env !! prev = None → m = ([EOpen prev], Err (Raise IOError prev)))
  ∧ (∀ info, outcome m = Ok info →
       ∃ ds wgs,
         assets env !! prev = Some ds
         ∧ warp_transform_bounds env (crs ds) "epsg:4326" (ds_bounds ds) 21
           = Ok wgs
         ∧ m_bounds info = list_of_box wgs)
  ∧ (raises IOError (outcome m) →
       assets env !! prev = None
       ∨ (∃ ds, assets env !! prev = Some ds
            ∧ raises IOError
                (warp_transform_bounds env (crs ds) "epsg:4326"
                   (ds_bounds ds) 21))
       ∨ (∃ band, band ∈ metadata_bands
            ∧ raises IOError (stats_reader env sceneid pmin pmax p band))).
Proof.
  intros Hp prev m. split_and!.
  - subst m. rewrite metadata_unfold, Hp. cbn zeta. fold prev.
    destruct (assets env !! prev) as [ds|]; [|done].
    destruct (warp_transform_bounds env _ _ _ _) as [wgs|e]; [|done].
    cbn [trace fst]. unfold opens. rewrite omap_app. cbn.
    f_equal. eapply opens_runs, metadata_from_bounds_trace.
  - apply preview_is_not_reference.
  - intros Hnone. subst m. rewrite metadata_unfold, Hp. cbn zeta. fold prev.
    by rewrite Hnone.
  - intros info Hinfo. apply metadata_ok_iff in Hinfo
      as (p' & ds & wgs & rs & Hp' & Hds & Hw & _ & ->).
    assert (p' = p) as -> by congruence. by exists ds, wgs.
  - intros [msg Hraise]. subst m.
    rewrite metadata_unfold, Hp in Hraise. cbn zeta in Hraise.
    fold prev in Hraise.
    destruct (assets env !! prev) as [ds|] eqn:Hds; [|by left].
    right. destruct (warp_transform_bounds env _ _ _ _) as [wgs|e] eqn:Hw.
    + right. cbn [outcome snd] in Hraise.
      fold (outcome (metadata_from_bounds env sched sceneid pmin pmax
        (cbers_address_of p) wgs)) in Hraise.
      unfold metadata_from_bounds in Hraise.
      rewrite outcome_bind, executor_map_outcome in Hraise by done.
      rewrite <- list_fmap_compose in Hraise.
      change (_ ∘ band_address (cbers_address_of p) sceneid)
        with (stats_reader env sceneid pmin pmax p) in Hraise.
      destruct (collect _) as [rs|e] eqn:Hc; [done|].
      injection Hraise as ->.
      apply collect_err in Hc as (vs & rest & Hc).
      assert (Err (Raise IOError msg)
        ∈ stats_reader env sceneid pmin pmax p <$> metadata_bands) as Hin.
      { rewrite Hc. apply elem_of_app. right. by left. }
      apply list_elem_of_fmap in Hin as (band & Hb & Hin).
      exists band. split; [done|]. by exists msg.
    + left. exists ds. split; [done|]. exists msg.
      cbn [outcome snd] in Hraise. congruence.
Qed.

(** ** Memoization *)

Section lru_lemmas.
Context {K V : Type} `{EqDecision K}.
Implicit Types (c pre post : list (K * V)) (k : K) (v : V).

Lemma cache_get_app_notin pre c k :
  k ∉ pre.*1 → cache_get k (pre ++ c) = cache_get k c.
Proof.
  induction pre as [|[k' v'] pre IH]; [done|]. cbn.
  intros [Hne Hk]%not_elem_of_cons. case_decide; [congruence | auto].
Qed.

Lemma cache_get_stored k v n c : stored_within k v n c → cache_get k c = Some v.
Proof.
  intros (pre & post & -> & Hk & _). rewrite cache_get_app_notin by done.
  cbn. by case_decide.
Qed.

Lemma cache_drop_length k v c :
  cache_get k c = Some v → (length (cache_drop k c) < length c)%nat.
Proof.
  unfold cache_drop. induction c as [|[k' v'] c IH]; [done|].
  cbn [cache_get length].
  pose proof (length_filter (λ kv : K * V, kv.1 ≠ k) c) as Hle.
  case_decide as Hk; subst.
  - intros _. rewrite filter_cons_False by (cbn; tauto). lia.
  - intros Hget. rewrite filter_cons_True by (cbn; congruence).
    cbn. apply IH in Hget. lia.
Qed.

Lemma lru_cache_length (func : K → M V) k c :
  (length c ≤ maxsize)%nat → (length (lru_cache func k c).2 ≤ maxsize)%nat.
Proof.
  intros Hlen. unfold lru_cache.
  destruct (cache_get k c) as [v|] eqn:Hget.
  - cbn. apply cache_drop_length in Hget. lia.
  - destruct (func k) as [t [v|e]]; cbn [snd]; [|done].
    rewrite length_take. lia.
Qed.

Lemma lru_cache_stores (func : K → M V) k c v :
  outcome (lru_cache func k c).1 = Ok v →
  stored_within k v 0 (lru_cache func k c).2.
Proof.
  unfold lru_cache. destruct (cache_get k c) as [v'|] eqn:Hget.
  - intros [= ->]. exists [], (cache_drop k c). cbn. split_and!; [done| |lia].
    apply not_elem_of_nil.
  - destruct (func k) as [t [v'|e]]; cbn; [|done]. intros [= ->].
    exists [], (take 127 c). split_and!; [done| |done].
    apply not_elem_of_nil.
Qed.

Lemma lru_cache_other (func : K → M V) k k' v n c :
  k' ≠ k → stored_within k v n c → (S n < maxsize)%nat →
  stored_within k v (S n) (lru_cache func k' c).2.
Proof.
  intros Hne (pre & post & -> & Hk & Hlen) Hn. unfold lru_cache.
  destruct (cache_get k' _) as [v'|].
  - cbn [snd]. unfold cache_drop. rewrite filter_app, filter_cons_True
      by (cbn; congruence).
    exists ((k', v') :: filter (λ kv : K * V, kv.1 ≠ k') pre),
      (filter (λ kv : K * V, kv.1 ≠ k') post).
    split_and!; [done| |].
    + cbn. apply not_elem_of_cons. split; [congruence|].
      intros Hin. apply Hk.
      apply list_elem_of_fmap in Hin as (kv & -> & Hin).
      apply list_elem_of_filter in Hin as [_ Hin].
      apply list_elem_of_fmap. eauto.
    + cbn. pose proof (length_filter (λ kv : K * V, kv.1 ≠ k') pre). lia.
  - destruct (func k') as [t [v'|e]]; cbn [snd].
    + exists ((k', v') :: pre), (take (maxsize - S (S (length pre))) post).
      split_and!.
      * rewrite app_comm_cons, take_app_ge by (cbn; unfold maxsize in *; lia).
        f_equal. cbn [length].
        replace (maxsize - S (length pre))%nat
          with (S (maxsize - S (S (length pre))))
          by (unfold maxsize in *; lia).
        done.
      * cbn. apply not_elem_of_cons. split; [congruence | done].
      * cbn. lia.
    + exists pre, post. split_and!; [done..|lia].
Qed.

Context {E : Type}.

Lemma session_stored (func : E → K → M V) (calls : list (E * K)) k v n c :
  Forall (λ call, call.2 ≠ k) calls → stored_within k v n c →
  (n + length calls < maxsize)%nat →
  stored_within k v (n + length calls) (session func calls c).2.
Proof.
  revert n c. induction calls as [|[env k'] calls IH]; intros n c Hall Hst Hn.
  - cbn. by rewrite Nat.add_0_r.
  - apply Forall_cons in Hall as [Hk' Hall]. cbn in Hk', Hn. cbn.
    pose proof (lru_cache_other (func env) k k' v n c Hk' Hst) as Hstep.
    destruct (lru_cache (func env) k' c) as [r c1]. cbn [snd] in Hstep.
    specialize (IH (S n) c1 Hall (Hstep ltac:(lia)) ltac:(lia)).
    destruct (session func calls c1) as [rs c2]. cbn [snd] in *.
    by replace (n + S (length calls))%nat with (S n + length calls)%nat by lia.
Qed.

Lemma session_length (func : E → K → M V) (calls : list (E * K)) c :
  (length c ≤ maxsize)%nat → (length (session func calls c).2 ≤ maxsize)%nat.
Proof.
  revert c. induction calls as [|[env k'] calls IH]; intros c Hlen; [done|].
  cbn. pose proof (lru_cache_length (func env) k' c Hlen) as Hstep.
  destruct (lru_cache (func env) k' c) as [r c1]. cbn [snd] in Hstep.
  specialize (IH c1 Hstep). by destruct (session func calls c1).
Qed.

Lemma cache_get_elem k v c : cache_get k c = Some v → (k, v) ∈ c.
Proof.
  induction c as [|[k' v'] c IH]; [done|]. cbn. case_decide as Hk.
  - intros [= ->]. subst. by left.
  - intros Hget. right. auto.
Qed.

Lemma lru_cache_sound (func : E → K → M V) (env : E) k c :
  cache_sound func c → cache_sound func (lru_cache (func env) k c).2.
Proof.
  intros Hc. unfold lru_cache. destruct (cache_get k c) as [v|] eqn:Hget.
  - cbn [snd]. intros k' v' [[= -> ->]|Hin]%elem_of_cons.
    + apply Hc. by apply cache_get_elem.
    + apply Hc. unfold cache_drop in Hin.
      by apply list_elem_of_filter in Hin as [_ Hin].
  - destruct (func env k) as [t [v|e]] eqn:Hf; cbn [snd]; [|done].
    intros k' v' Hin. apply subseteq_take in Hin.
    apply elem_of_cons in Hin as [[= -> ->]|Hin]; [|by apply Hc].
    exists env. by rewrite Hf.
Qed.

Lemma session_sound (func : E → K → M V) (calls : list (E * K)) c :
  cache_sound func c → cache_sound func (session func calls c).2.
Proof.
  revert c. induction calls as [|[env k'] calls IH]; intros c Hc; [done|].
  cbn. pose proof (lru_cache_sound func env k' c Hc) as Hstep.
  destruct (lru_cache (func env) k' c) as [r c1]. cbn [snd] in Hstep.
  specialize (IH c1 Hstep). by destruct (session func calls c1).
Qed.

(** A result stays in the cache while fewer than [maxsize] calls with
    other arguments are made; the repeated call then returns it without
    running the function, in whatever environment. *)
Lemma lru_cache_retains (func : E → K → M V) (env env' : E)
    (calls : list (E * K)) k v c :
  outcome (lru_cache (func env) k c).1 = Ok v →
  Forall (λ call, call.2 ≠ k) calls →
  (length calls < maxsize)%nat →
  (lru_cache (func env') k
     (session func calls (lru_cache (func env) k c).2).2).1 = ([], Ok v).
Proof.
  intros Hok Hall Hlen.
  pose proof (session_stored func calls k v 0 _ Hall
    (lru_cache_stores _ _ _ _ Hok) Hlen) as Hst.
  apply cache_get_stored in Hst. unfold lru_cache at 1. by rewrite Hst.
Qed.
End lru_lemmas.

(** C10. With the empty tuple as [rgb], [tile] returns no array: whatever
    the scene and the tile, the call ends in an exception; once the scene
    bounds are known and contain the tile, the exception is the
    [ValueError] of stacking an empty sequence.  The decorated function
    returns no array either, at any point of a process: no call can have
    stored one. *)
Theorem tile_empty_rgb_raises (env : Env) (sched : scheduler)
    (sceneid : string) (tile_x tile_y tile_z : Z) (tilesize : Z) :
  let r :=
    outcome (tile env sched sceneid tile_x tile_y tile_z (RgbTuple [])
               tilesize) in
  (∃ e, r = Err e)
  ∧ r = match cbers_parse_scene_id env sceneid with
        | Err e => Err e
        | Ok p =>
            let ref := band_address (cbers_address_of p) sceneid "5" in
            match assets env !! ref with
            | None => Err (Raise IOError ref)
            | Some ds =>
                match warp_transform_bounds env (crs ds) "epsg:4326"
                        (ds_bounds ds) 21 with
                | Err e => Err e
                | Ok wgs =>
                    if tile_exists env wgs tile_z tile_x tile_y
                    then Err (Raise ValueError
                                "need at least one array to stack")
                    else Err (Raise TileOutsideBounds
                                (outside_message tile_z tile_x tile_y))
                end
            end
        end
  ∧ (∀ calls,
       ∃ e,
         outcome
           (cached_tile env sched
              (sceneid, tile_x, tile_y, tile_z, RgbTuple [], tilesize)
              (session tile_call calls []).2).1 = Err e).
Proof.
  cbn zeta.
  destruct (tile_empty_rgb_cases env sched sceneid tile_x tile_y tile_z
    tilesize) as [Herr Hcases].
  split_and!; [done..|]. intros calls.
  assert (cache_sound tile_call (session tile_call calls []).2) as Hsound.
  { apply session_sound. by intros k v ?%elem_of_nil. }
  unfold cached_tile, lru_cache.
  destruct (cache_get _ _) as [v|] eqn:Hget.
  - apply cache_get_elem, Hsound in Hget as [[env' sched'] Hok].
    change (outcome (tile env' sched' sceneid tile_x tile_y tile_z
      (RgbTuple []) tilesize) = Ok v) in Hok.
    destruct (tile_empty_rgb_cases env' sched' sceneid tile_x tile_y tile_z
      tilesize) as [[e He] _].
    cbn zeta in He. congruence.
  - cbn [tile_call]. destruct Herr as [e He]. cbn zeta in He.
    destruct (tile _ _ _ _ _ _ _ _) as [t [v|e']]; [done|]. by eauto.
Qed.

(** C4, as stated, fails: after 128 calls for other scenes the result for
    ["A"] has left the cache, and the next call computes it again. *)
Lemma bounds_recomputed_after_eviction : ¬ bounds_memoized_forever.
Proof.
  intros [_ Hsame].
  specialize (Hsame crowded_process 0%nat 129%nat "A"
    {| b_sceneid := "A"; b_bounds := list_of_box demo_bounds |}).
  assert (outcome <$> (session bounds crowded_process []).1 !! 129%nat
    = Some (Ok {| b_sceneid := "A"; b_bounds := list_of_box demo_bounds |}))
    as Habs.
  { apply Hsame; [lia | | |]; vm_compute; reflexivity. }
  vm_compute in Habs. discriminate Habs.
Qed.

(** In one unchanged world as well, the entry of ["A"] is gone. *)
Lemma lru_cache_evicts :
  cache_get "A"
    (session bounds
       ((crowd_env demo_bounds, "A")
          :: ((λ s, (crowd_env demo_bounds, s)) <$> crowd)) []).2 = None.
Proof. vm_compute. reflexivity. Qed.

(** C4, amended.  Each decorated function keeps its results, per argument
    tuple, in a cache of at most 128 entries that drops the least recently
    used one.  When [bounds(S)] has returned and fewer than 128 calls of
    [bounds] with other scene ids follow, the next [bounds(S)] returns the
    same result without opening anything, whatever has happened to the
    assets; the same holds of [metadata] and of [tile] with their argument
    tuples. *)
Theorem bounds_memoized_while_cached (env env' : Env) (sceneid : string)
    (c : list (string * bounds_info)) (calls : list (Env * string))
    (info : bounds_info) :
  outcome (cached_bounds env sceneid c).1 = Ok info →
  Forall (λ call, call.2 ≠ sceneid) calls →
  (length calls < maxsize)%nat →
  let c' := (session bounds calls (cached_bounds env sceneid c).2).2 in
  (cached_bounds env' sceneid c').1 = ([], Ok info)
  ∧ ((length c ≤ maxsize)%nat → (length c' ≤ maxsize)%nat)
  ∧ maxsize = 128%nat
  ∧ (∀ sched sched' args mc mcalls minfo,
       outcome (cached_metadata env sched args mc).1 = Ok minfo →
       Forall (λ call, call.2 ≠ args) mcalls →
       (length mcalls < maxsize)%nat →
       (cached_metadata env' sched' args
          (session metadata_call mcalls
             (cached_metadata env sched args mc).2).2).1 = ([], Ok minfo))
  ∧ (∀ sched sched' args tc tcalls out,
       outcome (cached_tile env sched args tc).1 = Ok out →
       Forall (λ call, call.2 ≠ args) tcalls →
       (length tcalls < maxsize)%nat →
       (cached_tile env' sched' args
          (session tile_call tcalls
             (cached_tile env sched args tc).2).2).1 = ([], Ok out)).
Proof.
  intros Hok Hall Hlen c'. split_and!.
  - by apply (lru_cache_retains bounds env env' calls).
  - intros Hc. apply session_length. by apply lru_cache_length.
  - done.
  - intros sched sched' args mc mcalls minfo Hm Hmall Hmlen.
    by apply (lru_cache_retains metadata_call (env, sched) (env', sched')).
  - intros sched sched' args tc tcalls out Ht Htall Htlen.
    by apply (lru_cache_retains tile_call (env, sched) (env', sched')).
Qed.

(** * The statements at a concrete scene *)

Lemma bounds_opens_reference_band_demo :
  opens (trace (bounds demo_env "A"))
  = ["s3://cbers-pds/CBERS4/MUX/A/A_BAND5.tif"].
Proof.
  exact (proj1 (bounds_opens_reference_band demo_env "A" demo_params eq_refl)).
Defined.

Lemma tile_outside_bounds_iff_disjoint_demo :
  tile demo_env demo_sched "A" (-50) (-25) 10 default_rgb default_tilesize
  = ([EOpen "s3://cbers-pds/CBERS4/MUX/A/A_BAND5.tif";
      ETransform "epsg:32722" "epsg:4326" demo_bounds 21],
     Err (Raise TileOutsideBounds "Tile 10/-50/-25 is outside image bounds"))
  ∧ outcome (tile demo_env demo_sched "A" (-54) (-25) 10 default_rgb
               default_tilesize)
    = outcome (tile_fan_out demo_env demo_sched "A" (-54) (-25) 10
                 default_rgb default_tilesize
                 (cbers_address_of demo_params)).
Proof.
  split.
  - refine (proj1 (tile_outside_bounds_iff_disjoint demo_env demo_sched "A"
      (-50) (-25) 10 default_rgb default_tilesize demo_params
      (Dataset "epsg:32722" demo_bounds) demo_bounds
      eq_refl _ eq_refl _ _) _).
    + vm_compute. reflexivity.
    + split; vm_compute; discriminate.
    + split; vm_compute; discriminate.
    + apply test_disjoint. vm_compute. reflexivity.
  - refine (f_equal snd (proj1 (proj2 (tile_outside_bounds_iff_disjoint
      demo_env demo_sched "A"
      (-54) (-25) 10 default_rgb default_tilesize demo_params
      (Dataset "epsg:32722" demo_bounds) demo_bounds
      eq_refl _ eq_refl _ _) _))).
    + vm_compute. reflexivity.
    + split; vm_compute; discriminate.
    + split; vm_compute; discriminate.
    + exists (-54)%Q, (-25)%Q. repeat split; vm_compute; discriminate.
Defined.

Lemma tile_band_order_demo :
  ∃ p grids,
    cbers_parse_scene_id demo_env "A" = Ok p
    ∧ Nd [demo_grid "s3://cbers-pds/CBERS4/MUX/A/A_BAND6.tif";
          demo_grid "s3://cbers-pds/CBERS4/MUX/A/A_BAND5.tif"] = Nd grids
    ∧ Forall2
        (λ band grid,
           band_reader demo_env "A" (-54) (-25) 10 256 p band = Ok grid)
        ["6"; "5"] grids.
Proof.
  destruct (tile_band_order demo_env demo_sched "A" (-54) (-25) 10
    ["6"; "5"] 256
    (Nd [demo_grid "s3://cbers-pds/CBERS4/MUX/A/A_BAND6.tif";
         demo_grid "s3://cbers-pds/CBERS4/MUX/A/A_BAND5.tif"]))
    as (p & grids & Hp & Hout & Hall & _).
  - vm_compute. reflexivity.
  - by exists p, grids.
Defined.

Lemma metadata_fails_before_preview_demo :
  metadata demo_env_shipped demo_sched "A" default_pmin default_pmax
  = ([], Err (Raise (OtherException "AttributeError")
                "module 'rio_tiler.utils' has no attribute 'cbersl_parse_scene_id'")).
Proof.
  refine (proj1 (metadata_fails_before_preview demo_env_shipped demo_sched
    "A" default_pmin default_pmax demo_params
    (Dataset "epsg:32722" demo_bounds) _ eq_refl _ eq_refl)).
  vm_compute. reflexivity.
Defined.

Lemma metadata_bounds_from_preview_demo :
  opens (trace (metadata demo_env demo_sched "A" default_pmin default_pmax))
  = ["s3://cbers-pds/CBERS4/MUX/A/preview.jp2"].
Proof.
  exact (proj1 (metadata_bounds_from_preview demo_env demo_sched "A"
    default_pmin default_pmax demo_params eq_refl)).
Defined.

(** The bounds of ["A"] change in the store after the first call; two
    calls for other scenes later the old result is still returned. *)
Lemma bounds_memoized_while_cached_demo :
  (cached_bounds (crowd_env (Box (-54) (-25) (-52) (-24))) "A"
     (session bounds
        [(crowd_env demo_bounds, "S0"); (crowd_env demo_bounds, "S1")]
        (cached_bounds (crowd_env demo_bounds) "A" []).2).2).1
  = ([], Ok {| b_sceneid := "A"; b_bounds := list_of_box demo_bounds |}).
Proof.
  refine (proj1 (bounds_memoized_while_cached (crowd_env demo_bounds)
    (crowd_env (Box (-54) (-25) (-52) (-24))) "A" []
    [(crowd_env demo_bounds, "S0"); (crowd_env demo_bounds, "S1")]
    {| b_sceneid := "A"; b_bounds := list_of_box demo_bounds |} _ _ _)).
  - vm_compute. reflexivity.
  - repeat constructor; cbn; discriminate.
  - unfold maxsize. cbn. lia.
Defined.


Lemma worker_failure_aborts_demo :
  outcome (tile demo_env_bands_missing demo_sched "A" (-54) (-25) 10
             (RgbTuple ["6"; "5"]) 256)
  = Err (Raise IOError "s3://cbers-pds/CBERS4/MUX/A/A_BAND6.tif")
  ∧ outcome (metadata demo_env_bands_missing demo_sched "A" 2 98)
    = Err (Raise IOError "s3://cbers-pds/CBERS4/MUX/A/A_BAND5.tif").
Proof.
  pose proof (worker_failure_aborts demo_env_bands_missing demo_sched "A"
    demo_params (Dataset "epsg:32722" demo_bounds) demo_bounds
    (Raise IOError "s3://cbers-pds/CBERS4/MUX/A/A_BAND6.tif")) as [Ht _].
  pose proof (worker_failure_aborts demo_env_bands_missing demo_sched "A"
    demo_params (Dataset "epsg:32722" demo_bounds) demo_bounds
    (Raise IOError "s3://cbers-pds/CBERS4/MUX/A/A_BAND5.tif")) as [_ Hm].
  split.
  - refine (proj1 (Ht (-54)%Z (-25)%Z 10%Z ["6"; "5"] 256%Z []
      [Err (Raise IOError "s3://cbers-pds/CBERS4/MUX/A/A_BAND5.tif")]
      eq_refl _ eq_refl _ _)); vm_compute; reflexivity.
  - refine (proj1 (Hm 2%Z 98%Z []
      [Err (Raise IOError "s3://cbers-pds/CBERS4/MUX/A/A_BAND6.tif");
       Err (Raise IOError "s3://cbers-pds/CBERS4/MUX/A/A_BAND6.tif");
       Err (Raise IOError "s3://cbers-pds/CBERS4/MUX/A/A_BAND8.tif")]
      eq_refl _ eq_refl _)); vm_compute; reflexivity.
Defined.

(** * Further properties of the code *)

(** ** Outcomes without the scheduler *)

Lemma tile_fan_out_outcome (env : Env) (sched : scheduler) (sceneid : string)
    (tile_x tile_y tile_z : Z) (rgb : rgb_arg) (tilesize : Z)
    (cbers_address : string) :
  outcome (tile_fan_out env sched sceneid tile_x tile_y tile_z rgb tilesize
             cbers_address)
  = match outcome (iter_rgb (coerce_rgb rgb)) with
    | Err e => Err e
    | Ok bands =>
        match collect
                ((λ a, tile_band_worker env a
                         (mercantile_xy_bounds env tile_x tile_y tile_z)
                         tilesize)
                   <$> (band_address cbers_address sceneid <$> bands)) with
        | Err e => Err e
        | Ok arrays => outcome (np_stack arrays)
        end
    end.
Proof.
  unfold tile_fan_out. rewrite outcome_bind.
  destruct (outcome (iter_rgb _)) as [bands|e]; [|done].
  by rewrite outcome_bind, executor_map_outcome.
Qed.

Lemma metadata_from_bounds_outcome (env : Env) (sched : scheduler)
    (sceneid : string) (pmin pmax : Z) (cbers_address : string) (wgs : box) :
  outcome (metadata_from_bounds env sched sceneid pmin pmax cbers_address wgs)
  = match collect
            ((λ a, sentinel_min_max_worker env a pmin pmax)
               <$> (band_address cbers_address sceneid <$> metadata_bands)) with
    | Err e => Err e
    | Ok responses =>
        Ok {| m_sceneid := sceneid;
              m_bounds := list_of_box wgs;
              rgbMinMax := dict (zip metadata_bands responses) |}
    end.
Proof.
  unfold metadata_from_bounds.
  by rewrite outcome_bind, executor_map_outcome.
Qed.

Lemma tile_outcome (env : Env) (sched : scheduler) (sceneid : string)
    (tile_x tile_y tile_z : Z) (rgb : rgb_arg) (tilesize : Z) :
  outcome (tile env sched sceneid tile_x tile_y tile_z rgb tilesize)
  = match cbers_parse_scene_id env sceneid with
    | Err e => Err e
    | Ok p =>
        let ref := band_address (cbers_address_of p) sceneid "5" in
        match assets env !! ref with
        | None => Err (Raise IOError ref)
        | Some ds =>
            match warp_transform_bounds env (crs ds) "epsg:4326"
                    (ds_bounds ds) 21 with
            | Err e => Err e
            | Ok wgs =>
                outcome (tile_from_bounds env sched sceneid tile_x tile_y
                           tile_z rgb tilesize (cbers_address_of p) wgs)
            end
        end
    end.
Proof.
  rewrite tile_unfold.
  destruct (cbers_parse_scene_id env sceneid) as [p|e]; [|done].
  cbn zeta. destruct (assets env !! _) as [ds|]; [|done].
  by destruct (warp_transform_bounds env _ _ _ _).
Qed.

Lemma metadata_outcome (env : Env) (sched : scheduler) (sceneid : string)
    (pmin pmax : Z) :
  outcome (metadata env sched sceneid pmin pmax)
  = match cbersl_parse_scene_id env sceneid with
    | Err e => Err e
    | Ok p =>
        let prev := preview_address (cbers_address_of p) in
        match assets env !! prev with
        | None => Err (Raise IOError prev)
        | Some ds =>
            match warp_transform_bounds env (crs ds) "epsg:4326"
                    (ds_bounds ds) 21 with
            | Err e => Err e
            | Ok wgs =>
                outcome (metadata_from_bounds env sched sceneid pmin pmax
                           (cbers_address_of p) wgs)
            end
        end
    end.
Proof.
  rewrite metadata_unfold.
  destruct (cbersl_parse_scene_id env sceneid) as [p|e]; [|done].
  cbn zeta. destruct (assets env !! _) as [ds|]; [|done].
  by destruct (warp_transform_bounds env _ _ _ _).
Qed.

(** X1. What [tile] and [metadata] give back, a value or an exception, does
    not depend on the order in which the workers of the pool finish, nor on
    how many of them were started before a failure was noticed. *)
Theorem outcome_scheduler_independent (env : Env) (sched sched' : scheduler) :
  (∀ sceneid tile_x tile_y tile_z rgb tilesize,
     outcome (tile env sched sceneid tile_x tile_y tile_z rgb tilesize)
     = outcome (tile env sched' sceneid tile_x tile_y tile_z rgb tilesize))
  ∧ (∀ sceneid pmin pmax,
       outcome (metadata env sched sceneid pmin pmax)
       = outcome (metadata env sched' sceneid pmin pmax)).
Proof.
  split.
  - intros. rewrite !tile_outcome.
    destruct (cbers_parse_scene_id env sceneid) as [p|e]; [|done].
    cbn zeta. destruct (assets env !! _) as [ds|]; [|done].
    destruct (warp_transform_bounds env _ _ _ _) as [wgs|e]; [|done].
    unfold tile_from_bounds. destruct (tile_exists _ _ _ _ _); [|done].
    by rewrite !tile_fan_out_outcome.
  - intros. rewrite !metadata_outcome.
    destruct (cbersl_parse_scene_id env sceneid) as [p|e]; [|done].
    cbn zeta. destruct (assets env !! _) as [ds|]; [|done].
    destruct (warp_transform_bounds env _ _ _ _) as [wgs|e]; [|done].
    by rewrite !metadata_from_bounds_outcome.
Qed.

(** ** The band argument, continued *)

(** X2. With an int as [rgb], which the docstring allows, [tile] returns no
    array: every path ends in an exception, and once the scene bounds are
    known and contain the tile the exception is the [TypeError] of
    iterating over an int; no band worker is run. *)
Theorem tile_int_rgb_raises (env : Env) (sched : scheduler)
    (sceneid : string) (tile_x tile_y tile_z : Z) (n : Z) (tilesize : Z) :
  let t := tile env sched sceneid tile_x tile_y tile_z (RgbInt n) tilesize in
  (∃ e, outcome t = Err e)
  ∧ (∀ i a, ERun i a ∉ trace t)
  ∧ outcome t
    = match cbers_parse_scene_id env sceneid with
      | Err e => Err e
      | Ok p =>
          let ref := band_address (cbers_address_of p) sceneid "5" in
          match assets env !! ref with
          | None => Err (Raise IOError ref)
          | Some ds =>
              match warp_transform_bounds env (crs ds) "epsg:4326"
                      (ds_bounds ds) 21 with
              | Err e => Err e
              | Ok wgs =>
                  if tile_exists env wgs tile_z tile_x tile_y
                  then Err (Raise TypeError "'int' object is not iterable")
                  else Err (Raise TileOutsideBounds
                              (outside_message tile_z tile_x tile_y))
              end
          end
      end.
Proof.
  cbn zeta. rewrite tile_unfold.
  destruct (cbers_parse_scene_id env sceneid) as [p|e].
  2: { split_and!; [by eauto| |done]. intros i a Hin. by apply elem_of_nil in Hin. }
  cbn zeta. destruct (assets env !! _) as [ds|].
  2: { split_and!; [by eauto| |done]. intros i a Hin.
       by apply list_elem_of_singleton in Hin. }
  assert (∀ i a src dst b k,
    ERun i a ∉ [EOpen (band_address (cbers_address_of p) sceneid "5");
                ETransform src dst b k]) as Hpre.
  { intros i a src dst b k Hin.
    apply elem_of_cons in Hin as [?|Hin]; [done|].
    by apply list_elem_of_singleton in Hin. }
  destruct (warp_transform_bounds env _ _ _ _) as [wgs|e].
  2: { split_and!; [by eauto|intros i a; apply Hpre|done]. }
  unfold tile_from_bounds.
  destruct (tile_exists env wgs tile_z tile_x tile_y);
    (split_and!; [by eauto| |done]); intros i a Hin; cbn in Hin;
    by apply Hpre in Hin.
Qed.

(** ** The stacked array *)

Lemma first_error_ok {A} (vs : list A) : first_error (Ok <$> vs) = None.
Proof. induction vs as [|v vs IH]; cbn; [done|]. by rewrite IH. Qed.

Lemma started_ok {A} (sched : scheduler) (vs : list A) :
  started sched (Ok <$> vs) = length vs.
Proof. unfold started. by rewrite first_error_ok, length_fmap. Qed.

(** X3. When [tile] returns for a band tuple, the tuple is not empty and
    the array has one more axis than the band grids: its shape is the
    number of bands followed by the shape that all the band grids share. *)
Theorem tile_output_shape (env : Env) (sched : scheduler) (sceneid : string)
    (tile_x tile_y tile_z : Z) (bands : list string) (tilesize : Z)
    (out : ndarray) :
  outcome (tile env sched sceneid tile_x tile_y tile_z (RgbTuple bands)
             tilesize) = Ok out →
  ∃ grids s,
    out = Nd grids
    ∧ (0 < length bands)%nat
    ∧ length grids = length bands
    ∧ Forall (λ g, shape g = s) grids
    ∧ shape out = length bands :: s.
Proof.
  intros (p & ds & wgs & grids & _ & _ & _ & _ & Hg & -> & Hne & Hsh)
    %tile_ok_iff.
  apply (f_equal length) in Hg. rewrite !length_fmap in Hg.
  destruct grids as [|g grids]; [done|].
  exists (g :: grids), (shape g). split_and!; [done|cbn in *; lia|done| |].
  - apply Forall_forall. intros g' Hg'. apply Hsh; [done | by left].
  - cbn [shape]. by rewrite Hg.
Qed.

(** X4. When every band reader returns a grid but two of the grids differ
    in shape, [tile] fails with the [ValueError] of [np.stack]: it returns
    no ragged array. *)
Theorem tile_shape_mismatch_raises (env : Env) (sched : scheduler)
    (sceneid : string) (tile_x tile_y tile_z : Z) (bands : list string)
    (tilesize : Z) (p : scene_params) (ds : dataset) (wgs : box)
    (grids : list ndarray) (a b : ndarray) :
  cbers_parse_scene_id env sceneid = Ok p →
  assets env !! band_address (cbers_address_of p) sceneid "5" = Some ds →
  warp_transform_bounds env (crs ds) "epsg:4326" (ds_bounds ds) 21 = Ok wgs →
  tile_exists env wgs tile_z tile_x tile_y = true →
  band_reader env sceneid tile_x tile_y tile_z tilesize p <$> bands
  = Ok <$> grids →
  a ∈ grids → b ∈ grids → shape a ≠ shape b →
  outcome (tile env sched sceneid tile_x tile_y tile_z (RgbTuple bands)
             tilesize)
  = Err (Raise ValueError "all input arrays must have the same shape").
Proof.
  intros Hp Hds Hw Hex Hg Ha Hb Hab.
  rewrite tile_outcome, Hp. cbn zeta. rewrite Hds, Hw.
  unfold tile_from_bounds. rewrite Hex, tile_fan_out_outcome.
  cbn [coerce_rgb iter_rgb outcome snd mret M_ret].
  rewrite <- list_fmap_compose.
  change (_ ∘ band_address (cbers_address_of p) sceneid)
    with (band_reader env sceneid tile_x tile_y tile_z tilesize p).
  rewrite Hg. rewrite (proj2 (collect_ok _ grids) eq_refl).
  destruct (outcome (np_stack grids)) as [out|e] eqn:Hst.
  - apply np_stack_ok in Hst as (_ & _ & Hsh). by destruct (Hab (Hsh a b Ha Hb)).
  - unfold np_stack in Hst. destruct grids as [|g gs].
    + by apply elem_of_nil in Ha.
    + destruct (forallb _ gs); [done|]. by injection Hst as <-.
Qed.

(** ** What a call that returns has run *)

(** X5. A call of [tile] or of [metadata] that returns has made its open
    and its transform first and then run one task per listed band, each
    once, in some order: for [metadata] four tasks, two of them on the file
    of band ["6"]. *)
Theorem returning_call_runs_each_band_once (env : Env) (sched : scheduler)
    (sceneid : string) :
  (∀ tile_x tile_y tile_z bands tilesize out,
     let t :=
       tile env sched sceneid tile_x tile_y tile_z (RgbTuple bands) tilesize in
     outcome t = Ok out →
     ∃ p ds t',
       cbers_parse_scene_id env sceneid = Ok p
       ∧ assets env !! band_address (cbers_address_of p) sceneid "5" = Some ds
       ∧ trace t
         = EOpen (band_address (cbers_address_of p) sceneid "5")
             :: ETransform (crs ds) "epsg:4326" (ds_bounds ds) 21 :: t'
       ∧ t' ≡ₚ runs (band_address (cbers_address_of p) sceneid <$> bands))
  ∧ (∀ pmin pmax info,
       let m := metadata env sched sceneid pmin pmax in
       outcome m = Ok info →
       ∃ p ds t',
         cbersl_parse_scene_id env sceneid = Ok p
         ∧ assets env !! preview_address (cbers_address_of p) = Some ds
         ∧ trace m
           = EOpen (preview_address (cbers_address_of p))
               :: ETransform (crs ds) "epsg:4326" (ds_bounds ds) 21 :: t'
         ∧ t' ≡ₚ runs (band_address (cbers_address_of p) sceneid
                         <$> metadata_bands)).
Proof.
  split.
  - intros tile_x tile_y tile_z bands tilesize out t
      (p & ds & wgs & grids & Hp & Hds & Hw & Hex & Hg & _)%tile_ok_iff.
    exists p, ds,
      (trace (tile_fan_out env sched sceneid tile_x tile_y tile_z
                (RgbTuple bands) tilesize (cbers_address_of p))).
    split_and!; [done..| |].
    + subst t. rewrite tile_unfold, Hp. cbn zeta. rewrite Hds, Hw.
      unfold tile_from_bounds. by rewrite Hex.
    + rewrite tile_fan_out_trace. cbn zeta. rewrite <- list_fmap_compose.
      change (_ ∘ band_address (cbers_address_of p) sceneid)
        with (band_reader env sceneid tile_x tile_y tile_z tilesize p).
      rewrite Hg, started_ok, take_ge; [done|].
      apply (f_equal length) in Hg. rewrite !length_fmap in Hg.
      rewrite length_fmap. lia.
  - intros pmin pmax info m
      (p & ds & wgs & rs & Hp & Hds & Hw & Hr & _)%metadata_ok_iff.
    exists p, ds,
      (trace (metadata_from_bounds env sched sceneid pmin pmax
                (cbers_address_of p) wgs)).
    split_and!; [done..| |].
    + subst m. rewrite metadata_unfold, Hp. cbn zeta. by rewrite Hds, Hw.
    + rewrite metadata_from_bounds_trace. cbn zeta.
      rewrite <- list_fmap_compose.
      change (_ ∘ band_address (cbers_address_of p) sceneid)
        with (stats_reader env sceneid pmin pmax p).
      rewrite Hr, started_ok, take_ge; [done|].
      apply (f_equal length) in Hr. rewrite !length_fmap in Hr.
      rewrite length_fmap. lia.
Qed.

(** X6. [tile] needs the file of band ["5"] whatever bands are asked for:
    when that file is missing the call fails with the [IOError] of its
    open, before any transform and any band worker; and a scene id that the
    parser rejects makes [bounds] and [tile] fail with the parser's own
    exception before anything is opened. *)
Theorem tile_needs_reference_band (env : Env) (sched : scheduler)
    (sceneid : string) (tile_x tile_y tile_z : Z) (rgb : rgb_arg)
    (tilesize : Z) :
  (∀ p,
     cbers_parse_scene_id env sceneid = Ok p →
     assets env !! band_address (cbers_address_of p) sceneid "5" = None →
     tile env sched sceneid tile_x tile_y tile_z rgb tilesize
     = ([EOpen (band_address (cbers_address_of p) sceneid "5")],
        Err (Raise IOError (band_address (cbers_address_of p) sceneid "5"))))
  ∧ (∀ e,
       cbers_parse_scene_id env sceneid = Err e →
       tile env sched sceneid tile_x tile_y tile_z rgb tilesize = ([], Err e)
       ∧ bounds env sceneid = ([], Err e)).
Proof.
  split.
  - intros p Hp Hds. rewrite tile_unfold, Hp. cbn zeta. by rewrite Hds.
  - intros e He. by rewrite tile_unfold, bounds_unfold, He.
Qed.

(** ** Addresses *)

Lemma length_append (s t : string) :
  String.length (s +:+ t) = (String.length s + String.length t)%nat.
Proof. induction s as [|c s IH]; simpl; [done | by f_equal]. Qed.

Lemma append_inj_r (a b s : string) : a +:+ s = b +:+ s → a = b.
Proof.
  revert b. induction a as [|c a IH]; intros [|c' b]; cbn; [done| | |].
  - intros H. apply (f_equal String.length) in H.
    rewrite !length_append in H. cbn in H. lia.
  - intros H. apply (f_equal String.length) in H.
    rewrite !length_append in H. cbn in H. lia.
  - intros H. simpl in H. injection H as -> H. f_equal. by apply IH.
Qed.

(** X7. Within a scene, the address of a band file determines the band:
    different bands are read from different files, so a tuple of distinct
    bands makes [tile] read distinct files. *)
Theorem band_address_inj (cbers_address sceneid : string) :
  (∀ b1 b2,
     band_address cbers_address sceneid b1
     = band_address cbers_address sceneid b2 → b1 = b2)
  ∧ (∀ bands,
       NoDup bands → NoDup (band_address cbers_address sceneid <$> bands)).
Proof.
  assert (∀ b1 b2,
    band_address cbers_address sceneid b1
    = band_address cbers_address sceneid b2 → b1 = b2) as Hinj.
  { intros b1 b2. unfold band_address.
    intros H%append_inj_l%append_inj_l%append_inj_l%append_inj_l.
    by apply append_inj_r in H. }
  split; [done|]. intros bands Hnd.
  apply NoDup_fmap_2_strong; [|done]. intros b1 b2 _ _. apply Hinj.
Qed.

(** ** The caches over a whole process *)

Section lru_process.
Context {E K V : Type} `{EqDecision K}.
Implicit Types (c : list (K * V)) (k : K) (v : V) (func : E → K → M V)
  (calls hist : list (E * K)).

Lemma session_cons func env k calls c :
  session func ((env, k) :: calls) c
  = ((lru_cache (func env) k c).1
       :: (session func calls (lru_cache (func env) k c).2).1,
     (session func calls (lru_cache (func env) k c).2).2).
Proof.
  cbn [session]. destruct (lru_cache (func env) k c) as [r c1].
  cbn [fst snd]. by destruct (session func calls c1).
Qed.

Lemma cache_get_None k c : cache_get k c = None ↔ k ∉ c.*1.
Proof.
  induction c as [|[k' v'] c IH]; cbn.
  - split; [intros _; apply not_elem_of_nil | done].
  - rewrite not_elem_of_cons. case_decide; [naive_solver | naive_solver].
Qed.

Lemma lru_cache_miss (f : K → M V) k c :
  cache_get k c = None →
  lru_cache f k c
  = (f k, match outcome (f k) with
          | Ok v => take maxsize ((k, v) :: c)
          | Err _ => c
          end).
Proof.
  intros Hget. unfold lru_cache. rewrite Hget.
  by destruct (f k) as [t [v|e]].
Qed.

Lemma lru_cache_from func hist env k c :
  cache_from func hist c →
  cache_from func (hist ++ [(env, k)]) (lru_cache (func env) k c).2.
Proof.
  intros Hc.
  assert (∀ k' v', (k', v') ∈ c →
    ∃ j env', (hist ++ [(env, k)]) !! j = Some (env', k')
              ∧ outcome (func env' k') = Ok v') as Hold.
  { intros k' v' Hin. destruct (Hc k' v' Hin) as (j & env' & Hj & Hok).
    exists j, env'. split; [|done]. by apply lookup_app_l_Some. }
  unfold lru_cache. destruct (cache_get k c) as [v|] eqn:Hget.
  - cbn [snd]. intros k' v' [[= -> ->]|Hin]%elem_of_cons.
    + apply Hold. by apply cache_get_elem.
    + apply Hold. unfold cache_drop in Hin.
      by apply list_elem_of_filter in Hin as [_ Hin].
  - destruct (func env k) as [t [v|e]] eqn:Hf; cbn [snd]; [|done].
    intros k' v' Hin. apply subseteq_take in Hin.
    apply elem_of_cons in Hin as [[= -> ->]|Hin]; [|by apply Hold].
    exists (length hist), env. split; [|by rewrite Hf].
    by rewrite lookup_app_r, Nat.sub_diag.
Qed.

Lemma session_genuine_gen func calls hist c i (r : M V) :
  cache_from func hist c →
  (session func calls c).1 !! i = Some r →
  ∃ env k,
    calls !! i = Some (env, k)
    ∧ (r = func env k
       ∨ ∃ v j env',
           r = ([], Ok v) ∧ (j < length hist + i)%nat
           ∧ (hist ++ calls) !! j = Some (env', k)
           ∧ outcome (func env' k) = Ok v).
Proof.
  revert hist c i. induction calls as [|[env k] calls IH];
    intros hist c i Hc Hi; [done|].
  rewrite session_cons in Hi. cbn [fst] in Hi. destruct i as [|i].
  - cbn in Hi. injection Hi as <-. exists env, k. split; [done|].
    unfold lru_cache. destruct (cache_get k c) as [v|] eqn:Hget.
    + right. apply cache_get_elem, Hc in Hget as (j & env' & Hj & Hok).
      exists v, j, env'. split_and!; [done| |by apply lookup_app_l_Some|done].
      apply lookup_lt_Some in Hj. lia.
    + left. by destruct (func env k) as [t [v|e]].
  - cbn in Hi.
    destruct (IH (hist ++ [(env, k)]) _ i (lru_cache_from func hist env k c Hc)
      Hi) as (env1 & k1 & Hcall & Hr).
    exists env1, k1. split; [done|].
    destruct Hr as [Hr|(v & j & env' & -> & Hj & Hlook & Hok)]; [by left|].
    right. exists v, j, env'. rewrite <- app_assoc in Hlook.
    rewrite length_app in Hj. cbn in Hj, Hlook. split_and!; [done|lia|done..].
Qed.

Lemma lru_cache_NoDup (f : K → M V) k c :
  NoDup c.*1 → NoDup (lru_cache f k c).2.*1.
Proof.
  intros Hnd. unfold lru_cache. destruct (cache_get k c) as [v|] eqn:Hget.
  - cbn [snd]. rewrite fmap_cons. apply NoDup_cons. split.
    + intros ([k' v'] & Hk & Hin)%list_elem_of_fmap. cbn in Hk. subst k'.
      unfold cache_drop in Hin. by apply list_elem_of_filter in Hin as [? _].
    + eapply sublist_NoDup; [exact Hnd|].
      apply fmap_sublist, sublist_filter.
  - destruct (f k) as [t [v|e]]; cbn [snd]; [|done].
    eapply (sublist_NoDup _ ((k, v) :: c).*1).
    + rewrite fmap_cons. apply NoDup_cons. split; [|done].
      by apply cache_get_None.
    + apply fmap_sublist, sublist_take.
Qed.

Lemma session_NoDup func calls c :
  NoDup c.*1 → NoDup (session func calls c).2.*1.
Proof.
  revert c. induction calls as [|[env k] calls IH]; intros c Hnd; [done|].
  rewrite session_cons. cbn [snd]. by apply IH, lru_cache_NoDup.
Qed.

Lemma take_app_take {A} (n : nat) (l l' : list A) :
  take n (l ++ take n l') = take n (l ++ l').
Proof.
  rewrite !take_app, take_take. do 2 f_equal. lia.
Qed.

Lemma new_entries_keys func calls :
  Forall (λ call, returned (func call.1 call.2)) calls →
  (new_entries func calls).*1 = calls.*2.
Proof.
  induction 1 as [|[env k] calls Hv _ IH]; [done|].
  cbn in Hv. unfold returned in Hv. unfold new_entries. cbn.
  destruct (outcome (func env k)) as [v'|e]; [|done]. cbn. f_equal. exact IH.
Qed.

(** A run of calls with fresh, pairwise distinct arguments that all return
    puts its results in front of the cache, the newest first. *)
Lemma session_fresh func calls c :
  (length c ≤ maxsize)%nat →
  NoDup calls.*2 →
  Forall (λ call, (call.2 ∉ c.*1) ∧ returned (func call.1 call.2)) calls →
  (session func calls c).2
  = take maxsize (reverse (new_entries func calls) ++ c).
Proof.
  revert c. induction calls as [|[env k] calls IH]; intros c Hlen Hnd Hall.
  - cbn. by rewrite take_ge.
  - apply Forall_cons in Hall as [[Hk Hv] Hall]. cbn in Hk, Hv.
    rewrite fmap_cons in Hnd. apply NoDup_cons in Hnd as [Hk' Hnd].
    cbn in Hk'. unfold returned in Hv.
    destruct (outcome (func env k)) as [v|e] eqn:Hout; [|done].
    rewrite session_cons. cbn [snd].
    rewrite lru_cache_miss by (by apply cache_get_None). cbn [snd].
    rewrite Hout, IH.
    + unfold new_entries at 2. cbn [omap list_omap fst snd]. rewrite Hout.
      fold (new_entries func calls). rewrite reverse_cons, <- app_assoc.
      cbn [app]. apply take_app_take.
    + rewrite length_take. lia.
    + done.
    + rewrite Forall_forall in Hall. apply Forall_forall.
      intros [env1 k1] Hin1. destruct (Hall _ Hin1) as [Hk1 Hok1].
      cbn [fst snd] in Hk1, Hok1 |- *. split; [|done]. intros Hin.
      eapply elem_of_sublist in Hin; [|apply fmap_sublist, sublist_take].
      rewrite fmap_cons in Hin. apply elem_of_cons in Hin as [->|Hin]; [|done].
      apply Hk'. apply list_elem_of_fmap. by exists (env1, k).
Qed.

(** X8. A value obtained from a decorated function is a value the function
    computes for these very arguments: either the call has just run the
    function, or it replays, without running anything, what an earlier call
    of the process with the same arguments computed.  An exception is never
    replayed: a call that fails has run the function itself. *)
Theorem session_outcomes_genuine func calls (i : nat) (r : M V) :
  (session func calls []).1 !! i = Some r →
  ∃ env k,
    calls !! i = Some (env, k)
    ∧ (r = func env k
       ∨ ∃ v j env',
           r = ([], Ok v) ∧ (j < i)%nat ∧ calls !! j = Some (env', k)
           ∧ outcome (func env' k) = Ok v)
    ∧ (∀ e, outcome r = Err e → r = func env k).
Proof.
  intros Hi.
  destruct (session_genuine_gen func calls [] [] i r) as (env & k & Hc & Hr);
    [by intros k v ?%elem_of_nil | done |].
  exists env, k. split_and!; [done|exact Hr|].
  intros e He. destruct Hr as [Hr|(v & j & env' & -> & _)]; done.
Qed.

(** X9. At every point of a process the cache of a decorated function
    holds at most 128 results and no argument tuple twice. *)
Theorem session_cache_invariant func calls :
  (length (session func calls []).2 ≤ 128)%nat
  ∧ NoDup (session func calls []).2.*1.
Proof.
  split.
  - apply (session_length func calls []). cbn. unfold maxsize. lia.
  - apply session_NoDup. constructor.
Qed.

(** X10. The bound of X9 is reached: after 128 calls with pairwise distinct
    arguments that were not cached and that all return, no result of an
    earlier call is left, so an earlier call that is repeated runs the
    function again. *)
Theorem session_evicts_older func calls c k (env : E) :
  (length c ≤ maxsize)%nat →
  NoDup calls.*2 →
  Forall (λ call, (call.2 ∉ c.*1) ∧ returned (func call.1 call.2)) calls →
  (maxsize ≤ length calls)%nat →
  k ∉ calls.*2 →
  cache_get k (session func calls c).2 = None
  ∧ (lru_cache (func env) k (session func calls c).2).1 = func env k.
Proof.
  intros Hlen Hnd Hall Hmany Hk.
  assert (cache_get k (session func calls c).2 = None) as Hget.
  { rewrite session_fresh by done. apply cache_get_None. intros Hin.
    apply Hk. rewrite <- (new_entries_keys func calls).
    2: { eapply Forall_impl; [exact Hall|]. by intros ? [_ ?]. }
    assert (length (new_entries func calls) = length calls) as Hn.
    { rewrite <- (length_fmap fst), new_entries_keys, length_fmap; [done|].
      eapply Forall_impl; [exact Hall|]. by intros ? [_ ?]. }
    rewrite take_app in Hin.
    replace (maxsize - length (reverse (new_entries func calls)))%nat
      with 0%nat in Hin by (rewrite length_reverse; lia).
    rewrite take_0, app_nil_r in Hin.
    apply list_elem_of_fmap in Hin as (kv & -> & Hin).
    apply subseteq_take in Hin. rewrite elem_of_reverse in Hin.
    apply list_elem_of_fmap. by exists kv. }
  split; [done|]. by rewrite lru_cache_miss.
Qed.
End lru_process.

(** X11. The two spellings of a single band are cached apart: after
    [tile(..., ("b",), ...)] the call [tile(..., "b", ...)] runs [tile]
    again, in the environment of its time, and the other way round. *)
Theorem rgb_spellings_cached_apart (env env' : Env) (sched sched' : scheduler)
    (sceneid : string) (tile_x tile_y tile_z : Z) (b : string)
    (tilesize : Z) :
  (cached_tile env' sched'
     (sceneid, tile_x, tile_y, tile_z, RgbStr b, tilesize)
     (cached_tile env sched
        (sceneid, tile_x, tile_y, tile_z, RgbTuple [b], tilesize) []).2).1
  = tile env' sched' sceneid tile_x tile_y tile_z (RgbStr b) tilesize
  ∧ (cached_tile env' sched'
       (sceneid, tile_x, tile_y, tile_z, RgbTuple [b], tilesize)
       (cached_tile env sched
          (sceneid, tile_x, tile_y, tile_z, RgbStr b, tilesize) []).2).1
    = tile env' sched' sceneid tile_x tile_y tile_z (RgbTuple [b]) tilesize.
Proof.
  unfold cached_tile. split.
  - rewrite (lru_cache_miss _ _ []) by done. cbn [snd].
    rewrite lru_cache_miss; [done|].
    destruct (outcome _); [|done]. cbn. by case_decide.
  - rewrite (lru_cache_miss _ _ []) by done. cbn [snd].
    rewrite lru_cache_miss; [done|].
    destruct (outcome _); [|done]. cbn. by case_decide.
Qed.

(** ** The width of the pool *)

Lemma completion_order_window (w fuel : nat) (picks pending : list nat)
    (j0 : nat) :
  (0 < w)%nat →
  (∀ k x, pending !! k = Some x → (x ≤ k + j0)%nat) →
  ∀ j x, completion_order w fuel picks pending !! j = Some x →
         (x < j0 + j + w)%nat.
Proof.
  intros Hw. revert picks pending j0.
  induction fuel as [|fuel IH]; intros picks pending j0 Hinv j x; [done|].
  destruct pending as [|p0 rest]; [done|]. cbn [completion_order].
  set (pending := p0 :: rest) in *.
  set (k := (hd 0%nat picks `mod` length (take w pending))%nat).
  assert (k < w ∧ k < length pending)%nat as [Hkw Hk].
  { assert (0 < length (take w pending))%nat as Hpos.
    { rewrite length_take. subst pending. simpl. lia. }
    pose proof (Nat.mod_upper_bound (hd 0%nat picks) _
      (Nat.neq_sym _ _ (Nat.lt_neq _ _ Hpos))) as Hub.
    fold k in Hub. rewrite length_take in Hub. lia. }
  destruct (lookup_lt_is_Some_2 pending k Hk) as [y Hy].
  rewrite (nth_lookup_Some _ _ p0 _ Hy).
  destruct j as [|j]; cbn [lookup list_lookup].
  - intros [= <-]. specialize (Hinv k y Hy). lia.
  - intros Hj.
    assert (x < S j0 + j + w)%nat; [|lia].
    eapply (IH (tl picks) (delete k pending) (S j0)); [|exact Hj].
    intros k' x' Hk'. destruct (decide (k' < k)%nat).
    + rewrite list_lookup_delete_lt in Hk' by done. specialize (Hinv _ _ Hk'). lia.
    + rewrite list_lookup_delete_ge in Hk' by lia. specialize (Hinv _ _ Hk'). lia.
Qed.

Lemma finished_lookup (addresses : list string) (order : list nat)
    (j i : nat) (a : string) :
  Forall (λ i, is_Some (addresses !! i)) order →
  finished addresses order !! j = Some (i, a) → order !! j = Some i.
Proof.
  unfold finished. intros Hall. revert j.
  induction Hall as [|i0 order [a0 Ha0] _ IH]; intros j; [done|].
  cbn. rewrite Ha0. cbn. destruct j as [|j]; cbn.
  - by intros [= -> _].
  - apply IH.
Qed.

(** No task finishes before all but [max_workers - 1] of the tasks
    submitted before it. *)
Lemma executor_map_window {A} (w : nat) (sched : scheduler)
    (f : string → result A) (xs : list string) (j i : nat) (a : string) :
  trace (executor_map w sched f xs) !! j = Some (ERun i a) → (i < j + w)%nat.
Proof.
  unfold executor_map. case_decide as Hw; [done|]. cbn [trace fst].
  rewrite list_lookup_fmap. set (m := started sched (f <$> xs)).
  destruct (finished xs _ !! j) as [[i' a']|] eqn:Hj; [|done].
  intros [= -> ->].
  assert (m ≤ length xs)%nat as Hm.
  { subst m. etrans; [apply started_le|]. by rewrite length_fmap. }
  apply finished_lookup in Hj.
  - apply (completion_order_window w m (picks sched) (seq 0 m) 0) in Hj;
      [lia..|].
    intros k x [-> _]%lookup_seq. lia.
  - apply Forall_forall. intros i0 Hi0.
    rewrite completion_order_perm in Hi0; [|lia|by rewrite length_seq].
    apply elem_of_seq in Hi0. apply lookup_lt_is_Some_2. lia.
Qed.

(** X12. The pools are as narrow as the code makes them: in [metadata] the
    task of the band at position [i] is not among the first [i - 1] tasks
    to finish, in [tile] not among the first [i - 2]: no more than two,
    respectively three, tasks are ever in flight. *)
Theorem pool_width_respected (env : Env) (sched : scheduler)
    (sceneid : string) (j i : nat) (a : string) :
  (∀ pmin pmax,
     trace (metadata env sched sceneid pmin pmax) !! (2 + j)%nat
     = Some (ERun i a) → (i < j + 2)%nat)
  ∧ (∀ tile_x tile_y tile_z rgb tilesize,
       trace (tile env sched sceneid tile_x tile_y tile_z rgb tilesize)
         !! (2 + j)%nat = Some (ERun i a) → (i < j + 3)%nat).
Proof.
  split.
  - intros pmin pmax. rewrite metadata_unfold.
    destruct (cbersl_parse_scene_id env sceneid) as [p|e]; [|done].
    cbn zeta. destruct (assets env !! _) as [ds|]; [|done].
    destruct (warp_transform_bounds env _ _ _ _) as [wgs|e]; [|done].
    cbn [trace fst app lookup list_lookup Nat.add].
    fold (trace (metadata_from_bounds env sched sceneid pmin pmax
      (cbers_address_of p) wgs)).
    unfold metadata_from_bounds. rewrite trace_bind.
    destruct (outcome _); cbn [trace fst mret M_ret]; rewrite app_nil_r;
      apply executor_map_window.
  - intros tile_x tile_y tile_z rgb tilesize. rewrite tile_unfold.
    destruct (cbers_parse_scene_id env sceneid) as [p|e]; [|done].
    cbn zeta. destruct (assets env !! _) as [ds|]; [|done].
    destruct (warp_transform_bounds env _ _ _ _) as [wgs|e]; [|done].
    cbn [trace fst app lookup list_lookup Nat.add].
    fold (trace (tile_from_bounds env sched sceneid tile_x tile_y tile_z rgb
      tilesize (cbers_address_of p) wgs)).
    unfold tile_from_bounds. destruct (tile_exists _ _ _ _ _); [|done].
    unfold tile_fan_out.
    destruct rgb as [bands|b|n]; cbn [coerce_rgb iter_rgb]; [| |done].
    + rewrite bind_ret, trace_bind.
      destruct (outcome _); [rewrite np_stack_trace|]; rewrite app_nil_r;
        apply executor_map_window.
    + rewrite bind_ret, trace_bind.
      destruct (outcome _); [rewrite np_stack_trace|]; rewrite app_nil_r;
        apply executor_map_window.
Qed.

(** ** The further statements at a concrete scene *)

Lemma tile_output_shape_demo :
  ∃ grids s,
    Nd [demo_grid "s3://cbers-pds/CBERS4/MUX/A/A_BAND6.tif";
        demo_grid "s3://cbers-pds/CBERS4/MUX/A/A_BAND5.tif"] = Nd grids
    ∧ (0 < length ["6"; "5"])%nat
    ∧ length grids = length ["6"; "5"]
    ∧ Forall (λ g, shape g = s) grids
    ∧ shape (Nd [demo_grid "s3://cbers-pds/CBERS4/MUX/A/A_BAND6.tif";
                 demo_grid "s3://cbers-pds/CBERS4/MUX/A/A_BAND5.tif"])
      = length ["6"; "5"] :: s.
Proof.
  apply (tile_output_shape demo_env demo_sched "A" (-54) (-25) 10
    ["6"; "5"] 256).
  vm_compute. reflexivity.
Defined.

Lemma tile_shape_mismatch_raises_demo :
  outcome (tile demo_env_ragged demo_sched "A" (-54) (-25) 10
             (RgbTuple ["5"; "10"]) 256)
  = Err (Raise ValueError "all input arrays must have the same shape").
Proof.
  apply (tile_shape_mismatch_raises demo_env_ragged demo_sched "A" (-54)
    (-25) 10 ["5"; "10"] 256 demo_params (Dataset "epsg:32722" demo_bounds)
    demo_bounds
    [Nd (replicate 39 (Px 0)); Nd (replicate 40 (Px 0))]
    (Nd (replicate 39 (Px 0))) (Nd (replicate 40 (Px 0)))).
  - reflexivity.
  - vm_compute. reflexivity.
  - reflexivity.
  - vm_compute. reflexivity.
  - vm_compute. reflexivity.
  - by left.
  - right. by left.
  - vm_compute. discriminate.
Defined.

(** The second call of [bounds("A")] replays the result of the first. *)
Lemma session_outcomes_genuine_demo :
  let calls := [(demo_env, "A"); (demo_env_bands_missing, "A")] in
  let r : M bounds_info :=
    ([], Ok {| b_sceneid := "A"; b_bounds := list_of_box demo_bounds |}) in
  ∃ env k,
    calls !! 1%nat = Some (env, k)
    ∧ (r = bounds env k
       ∨ ∃ v j env',
           r = ([], Ok v) ∧ (j < 1)%nat ∧ calls !! j = Some (env', k)
           ∧ outcome (bounds env' k) = Ok v)
    ∧ (∀ e, outcome r = Err e → r = bounds env k).
Proof.
  cbn zeta.
  apply (session_outcomes_genuine bounds
    [(demo_env, "A"); (demo_env_bands_missing, "A")] 1%nat).
  vm_compute. reflexivity.
Defined.

Lemma crowd_NoDup : NoDup crowd.
Proof.
  unfold crowd. apply NoDup_fmap_2_strong; [|apply NoDup_seq].
  intros n m _ _ Hnm. apply (inj (String.app "S")) in Hnm.
  by apply (inj pretty) in Hnm.
Qed.

Lemma crowd_not_A : "A" ∉ crowd.
Proof.
  unfold crowd. intros (n & Hn & _)%list_elem_of_fmap. simpl in Hn.
  discriminate Hn.
Qed.

Lemma crowd_calls_keys (env : Env) (l : list string) :
  ((λ s, (env, s)) <$> l).*2 = l.
Proof. induction l as [|s l IH]; [done|]. cbn. by f_equal. Qed.

(** After [bounds] of the 128 other scenes, [bounds("A")] is computed
    anew. *)
Lemma session_evicts_older_demo :
  cache_get "A"
    (session bounds ((λ s, (crowd_env demo_bounds, s)) <$> crowd)
       [("A", {| b_sceneid := "A"; b_bounds := list_of_box demo_bounds |})]).2
  = None
  ∧ (lru_cache (bounds (crowd_env (Box (-54) (-25) (-52) (-24)))) "A"
       (session bounds ((λ s, (crowd_env demo_bounds, s)) <$> crowd)
          [("A", {| b_sceneid := "A";
                    b_bounds := list_of_box demo_bounds |})]).2).1
    = bounds (crowd_env (Box (-54) (-25) (-52) (-24))) "A".
Proof.
  apply (session_evicts_older bounds
    ((λ s, (crowd_env demo_bounds, s)) <$> crowd)
    [("A", {| b_sceneid := "A"; b_bounds := list_of_box demo_bounds |})] "A"
    (crowd_env (Box (-54) (-25) (-52) (-24)))).
  - unfold maxsize. cbn. lia.
  - rewrite crowd_calls_keys. apply crowd_NoDup.
  - apply Forall_fmap, Forall_and. split.
    + apply Forall_forall. intros s Hs Hin. cbn in Hin.
      apply list_elem_of_singleton in Hin. subst s. by apply crowd_not_A.
    + unfold crowd. apply Forall_fmap.
      apply (forallb_True
        (λ n : nat, returned (bounds (crowd_env demo_bounds)
                                ("S" +:+ pretty n)))).
      vm_compute. exact I.
  - rewrite length_fmap. unfold crowd, maxsize.
    by rewrite length_fmap, length_seq.
  - rewrite crowd_calls_keys. apply crowd_not_A.
Defined.
